(** * ARC debug access over JTAG: the transaction engine of [applet/jtag/arc.py]

    The applet drives a JTAG TAP through three coroutines of the lower
    interface ([write_ir], [read_dr], [write_dr]).  Every [await] on one of
    them is an interaction with the outside world, and [_wait_txn] polls in a
    [while] loop that has no bound, so the engine is embedded as interaction
    trees over the events of the TAP, and run against an arbitrary sequence of
    TAP answers.

    Calls of [self._log] only emit trace output; they do not touch the TAP and
    are left out of the embedding. *)

From Stdlib Require Import ZArith List String Lia Bool Arith.
From Stdlib Require Import Ascii HexString DecimalString DecimalPos DecimalZ.
From ITree Require Import ITree Events.Exception Eq.Shallow Interp.TranslateFacts.
Import ListNotations.
Import ITreeNotations.
Local Open Scope string_scope.
Local Open Scope itree_scope.
Local Open Scope Z_scope.
Local Open Scope list_scope.

Set Implicit Arguments.

(** ** Bit sequences

    A [bitarray] is a sequence of bits, least significant bit first (the
    registers are shifted through the TAP in that order). *)

Definition bitarray := list bool.

Fixpoint bits_to_Z (bits : bitarray) : Z :=
  match bits with
  | [] => 0
  | b :: rest => Z.b2z b + 2 * bits_to_Z rest
  end.

Fixpoint Z_to_bits (w : nat) (v : Z) : bitarray :=
  match w with
  | O => []
  | S w' => Z.odd v :: Z_to_bits w' (Z.div2 v)
  end.

(** ** Register codec *)

Module Bitstruct.

(** Modelled from the spec: the [Bitfield] factory of the bit-structure
    support module is not among the sources.  The spec's Register Codec
    gives, for each register type, [encode(fields) -> bit sequence of fixed
    width W] and [decode(bit sequence of width W) -> fields], decode being
    a pure bit-field extraction.  A register type is its list of named
    fields with their widths, first field in the least significant bits. *)
Record Bitfield := {
  bf_name : string;
  bf_fields : list (string * nat)
}.

(** An instance of a register type: the values of its fields. *)
Definition fields := list (string * Z).

Definition width (B : Bitfield) : nat :=
  fold_right (fun f acc => (snd f + acc)%nat) O (bf_fields B).

(** Attribute access [x.name]. *)
Fixpoint getattr (name : string) (x : fields) : Z :=
  match x with
  | [] => 0
  | (n, v) :: rest => if String.eqb n name then v else getattr name rest
  end.

(** The constructor [B(name=value, ...)]: fields that are not given are
    zero. *)
Definition make (B : Bitfield) (kwargs : list (string * Z)) : fields :=
  map (fun f => (fst f, getattr (fst f) kwargs)) (bf_fields B).

Fixpoint encode (layout : list (string * nat)) (x : fields) : bitarray :=
  match layout with
  | [] => []
  | (n, w) :: rest => Z_to_bits w (getattr n x) ++ encode rest x
  end.

Fixpoint decode (layout : list (string * nat)) (bits : bitarray) : fields :=
  match layout with
  | [] => []
  | (n, w) :: rest => (n, bits_to_Z (firstn w bits)) :: decode rest (skipn w bits)
  end.

Definition to_bitarray (B : Bitfield) (x : fields) : bitarray :=
  encode (bf_fields B) x.

Definition from_bitarray (B : Bitfield) (bits : bitarray) : fields :=
  decode (bf_fields B) bits.

(** A field assignment is valid for a register type when it gives every
    field, in order, a value that fits the field's width. *)
Fixpoint valid_fields (layout : list (string * nat)) (x : fields) : Prop :=
  match layout, x with
  | [], [] => True
  | (n, w) :: layout', (n', v) :: x' =>
      n = n' /\ 0 <= v < 2 ^ Z.of_nat w /\ valid_fields layout' x'
  | _, _ => False
  end.

Definition valid (B : Bitfield) (x : fields) : Prop :=
  NoDup (map fst (bf_fields B)) /\ valid_fields (bf_fields B) x.

End Bitstruct.
Import Bitstruct.

(** Modelled from the spec: ADDRESS and DATA are 32-bit registers that hold
    one 32-bit value each, the field the applet names [Address] and [Data]. *)
Definition DR_ADDRESS : Bitfield :=
  {| bf_name := "DR_ADDRESS"; bf_fields := [("Address", 32%nat)] |}.

Definition DR_DATA : Bitfield :=
  {| bf_name := "DR_DATA"; bf_fields := [("Data", 32%nat)] |}.

(** The other names the applet imports from the architecture modules, which
    are not among the sources, are taken as parameters: the instruction
    register codes, the six transaction opcodes, and the layouts of the STATUS
    and IDCODE registers, of which the spec fixes the widths (4 and 32) and
    the applet reads the fields [RD], [FL], [mfg_id] and [part_id]. *)
Class ArcJtag := {
  IR_STATUS : bitarray;
  IR_TXN_COMMAND : bitarray;
  IR_ADDRESS : bitarray;
  IR_DATA : bitarray;
  IR_IDCODE : bitarray;
  DR_TXN_COMMAND_WRITE_MEMORY : bitarray;
  DR_TXN_COMMAND_WRITE_CORE : bitarray;
  DR_TXN_COMMAND_WRITE_AUX : bitarray;
  DR_TXN_COMMAND_READ_MEMORY : bitarray;
  DR_TXN_COMMAND_READ_CORE : bitarray;
  DR_TXN_COMMAND_READ_AUX : bitarray;
  DR_STATUS : Bitfield;
  DR_IDCODE : Bitfield;
  DR_STATUS_width : width DR_STATUS = 4%nat;
  DR_IDCODE_width : width DR_IDCODE = 32%nat;
  DR_STATUS_flags : incl ["RD"; "FL"] (map fst (bf_fields DR_STATUS));
  DR_IDCODE_ids : incl ["mfg_id"; "part_id"] (map fst (bf_fields DR_IDCODE))
}.

(** ** Device catalog *)

Record ARCDevice := { name : string }.

(** Modelled from the spec: the device database is not among the sources.
    The catalog maps (manufacturer id, part id) to a device descriptor, and
    [lookup(mfg_id, part_id) -> device descriptor or none]. *)
Definition Catalog := list ((Z * Z) * ARCDevice).

Fixpoint lookup (devices : Catalog) (mfg_id part_id : Z) : option ARCDevice :=
  match devices with
  | [] => None
  | ((m, p), d) :: rest =>
      if (m =? mfg_id) && (p =? part_id) then Some d else lookup rest mfg_id part_id
  end.

(** ** The TAP and the engine's failures *)

(** The three coroutines of the lower interface. *)
Variant tapE : Type -> Type :=
| EvWriteIR : bitarray -> tapE unit
| EvReadDR : nat -> tapE bitarray
| EvWriteDR : bitarray -> tapE unit.

(** What the engine itself raises: a failed [assert], and
    [GlasgowAppletError] with its message. *)
Variant exn :=
| AssertionError
| GlasgowAppletError (msg : string).

Definition arcE := tapE +' exceptE exn.

Definition write_ir (code : bitarray) : itree arcE unit := trigger (EvWriteIR code).
Definition read_dr (w : nat) : itree arcE bitarray := trigger (EvReadDR w).
Definition write_dr (bits : bitarray) : itree arcE unit := trigger (EvWriteDR bits).

(** Truth value of an integer field, as [if x:] and [not x] take it. *)
Definition truthy (v : Z) : bool := negb (v =? 0).

(** ** JTAGARCInterface *)

Section JTAGARCInterface.

Context {arch : ArcJtag}.
Variable devices : Catalog.

Definition identify : itree arcE (fields * option ARCDevice) :=
  write_ir IR_IDCODE ;;
  idcode_bits <- read_dr 32 ;;
  let idcode := from_bitarray DR_IDCODE idcode_bits in
  let device := lookup devices (getattr "mfg_id" idcode) (getattr "part_id" idcode) in
  Ret (idcode, device).

(** One turn of [while not status.RD]: the loop variable is [status]. *)
Definition wait_body (status : fields) : itree arcE (fields + unit) :=
  if negb (truthy (getattr "RD" status)) then
    status_bits <- read_dr 4 ;;
    let status := from_bitarray DR_STATUS status_bits in
    if truthy (getattr "FL" status)
    then throw (GlasgowAppletError "transaction failed")
    else Ret (inl status)
  else Ret (inr tt).

Definition _wait_txn : itree arcE unit :=
  write_ir IR_STATUS ;;
  let status := make DR_STATUS [] in
  ITree.iter wait_body status.

Definition read (address : Z) (space : string) : itree arcE Z :=
  dr_txn_command <-
    (if String.eqb space "memory" then Ret DR_TXN_COMMAND_READ_MEMORY
     else if String.eqb space "core" then Ret DR_TXN_COMMAND_READ_CORE
     else if String.eqb space "aux" then Ret DR_TXN_COMMAND_READ_AUX
     else throw AssertionError) ;;
  let dr_address := make DR_ADDRESS [("Address", address)] in
  write_ir IR_ADDRESS ;;
  write_dr (to_bitarray DR_ADDRESS dr_address) ;;
  write_ir IR_TXN_COMMAND ;;
  write_dr dr_txn_command ;;
  _wait_txn ;;
  write_ir IR_DATA ;;
  dr_data_bits <- read_dr 32 ;;
  let dr_data := from_bitarray DR_DATA dr_data_bits in
  Ret (getattr "Data" dr_data).

Definition write (address data : Z) (space : string) : itree arcE unit :=
  dr_txn_command <-
    (if String.eqb space "memory" then Ret DR_TXN_COMMAND_WRITE_MEMORY
     else if String.eqb space "core" then Ret DR_TXN_COMMAND_WRITE_CORE
     else if String.eqb space "aux" then Ret DR_TXN_COMMAND_WRITE_AUX
     else throw AssertionError) ;;
  let dr_address := make DR_ADDRESS [("Address", address)] in
  write_ir IR_ADDRESS ;;
  write_dr (to_bitarray DR_ADDRESS dr_address) ;;
  write_ir IR_DATA ;;
  let dr_data := make DR_DATA [("Data", data)] in
  write_dr (to_bitarray DR_DATA dr_data) ;;
  write_ir IR_TXN_COMMAND ;;
  write_dr dr_txn_command ;;
  _wait_txn.

End JTAGARCInterface.

(** ** Running the engine against a TAP

    The engine is deterministic, so all that it can learn from a TAP is the
    sequence of answers to its [read_dr] calls: [resp i] is the answer to the
    call number [i] made on the port, and [n] counts the calls made so far.
    The run records every operation issued on the port, in order.  The port
    always answers: the engine has no handler, so an error raised by the
    transport itself would propagate out of the call unchanged; it is not
    part of the model, and what a run raises is what the engine throws. *)

Variant op :=
| OpWriteIR (code : bitarray)
| OpReadDR (w : nat) (answer : bitarray)
| OpWriteDR (bits : bitarray).

Variant outcome (R : Type) :=
| Returned (r : R)
| Raised (e : exn)
| Running.
Arguments Returned {R} r.
Arguments Raised {R} e.
Arguments Running {R}.

Definition step_tap {R X} (e : tapE X)
  : (X -> itree arcE R) -> (nat -> bitarray) -> nat -> op * nat * itree arcE R :=
  match e in tapE X return (X -> itree arcE R) -> (nat -> bitarray) -> nat -> op * nat * itree arcE R with
  | EvWriteIR code => fun k _ n => (OpWriteIR code, n, k tt)
  | EvReadDR w => fun k resp n => (OpReadDR w (resp n), S n, k (resp n))
  | EvWriteDR bits => fun k _ n => (OpWriteDR bits, n, k tt)
  end.

Definition issue {R} (o : op) (r : list op * outcome R) : list op * outcome R :=
  (o :: fst r, snd r).

Fixpoint run {R} (fuel : nat) (resp : nat -> bitarray) (n : nat) (t : itree arcE R)
  : list op * outcome R :=
  match fuel with
  | O => ([], Running)
  | S fuel' =>
      match observe t with
      | RetF r => ([], Returned r)
      | TauF t' => run fuel' resp n t'
      | VisF e k =>
          match e with
          | inl1 e' =>
              let '(o, n', t') := step_tap e' k resp n in
              issue o (run fuel' resp n' t')
          | inr1 (Throw ex) => ([], Raised ex)
          end
      end
  end.

(** The status polls number [n], [n+1], ..., [n+m-1] of a port. *)
Definition polls (resp : nat -> bitarray) (n m : nat) : list op :=
  map (fun i => OpReadDR 4 (resp i)) (seq n m).

(** The instruction register selections of a run, in order. *)
Fixpoint ir_selections (tr : list op) : list bitarray :=
  match tr with
  | [] => []
  | OpWriteIR code :: rest => code :: ir_selections rest
  | _ :: rest => ir_selections rest
  end.

(** The number of [read_dr] calls of a run. *)
Fixpoint reads_done (tr : list op) : nat :=
  match tr with
  | [] => O
  | OpReadDR _ _ :: rest => S (reads_done rest)
  | _ :: rest => reads_done rest
  end.

(** A run ends with [out] after issuing exactly [tr]: from some amount of
    fuel on, more fuel changes nothing. *)
Definition ends_with {R} (resp : nat -> bitarray) (n : nat) (t : itree arcE R)
    (tr : list op) (out : outcome R) : Prop :=
  out <> Running /\
  exists fuel, forall fuel', (fuel <= fuel')%nat -> run fuel' resp n t = (tr, out).

(** ** What a status poll says

    The answer to a poll of the STATUS register is decoded with the layout of
    the architecture; [RD] and [FL] are taken for their truth value. *)

Section Status.

Context {arch : ArcJtag}.

Definition status_RD (bits : bitarray) : bool :=
  truthy (getattr "RD" (from_bitarray DR_STATUS bits)).

Definition status_FL (bits : bitarray) : bool :=
  truthy (getattr "FL" (from_bitarray DR_STATUS bits)).

(** RD=0 and FL=0: the transaction is still going on. *)
Definition pending (bits : bitarray) : Prop :=
  status_RD bits = false /\ status_FL bits = false.

(** RD=1 and FL=0: the transaction is complete. *)
Definition ready (bits : bitarray) : Prop :=
  status_RD bits = true /\ status_FL bits = false.

(** The polls [n], ..., [n+m-1] of a port all say RD=0 and FL=0. *)
Definition pending_until (resp : nat -> bitarray) (n m : nat) : Prop :=
  forall i, (i < m)%nat -> pending (resp (n + i)%nat).

(** The loop of [_wait_txn], entered with the default status. *)
Definition poll_loop : itree arcE unit :=
  ITree.iter wait_body (make DR_STATUS []).

End Status.

(** ** Words of the specification

    The opcode that goes with each address space, for reads and for writes. *)

Definition read_opcodes {arch : ArcJtag} : list (string * bitarray) :=
  [("memory", DR_TXN_COMMAND_READ_MEMORY);
   ("core", DR_TXN_COMMAND_READ_CORE);
   ("aux", DR_TXN_COMMAND_READ_AUX)].

Definition write_opcodes {arch : ArcJtag} : list (string * bitarray) :=
  [("memory", DR_TXN_COMMAND_WRITE_MEMORY);
   ("core", DR_TXN_COMMAND_WRITE_CORE);
   ("aux", DR_TXN_COMMAND_WRITE_AUX)].

Definition address_spaces : list string := ["memory"; "core"; "aux"].

(** The data register shifts of a run, in order. *)
Fixpoint dr_shifts (tr : list op) : list op :=
  match tr with
  | [] => []
  | OpWriteIR _ :: rest => dr_shifts rest
  | o :: rest => o :: dr_shifts rest
  end.

(** The encoded ADDRESS and DATA payloads, as [read] and [write] build them. *)
Definition encoded_address (address : Z) : bitarray :=
  to_bitarray DR_ADDRESS (make DR_ADDRESS [("Address", address)]).

Definition encoded_data (data : Z) : bitarray :=
  to_bitarray DR_DATA (make DR_DATA [("Data", data)]).

(** The operations of [read] up to the polling phase. *)
Definition read_request {arch : ArcJtag} (address : Z) (opcode : bitarray)
  : list op :=
  [OpWriteIR IR_ADDRESS; OpWriteDR (encoded_address address);
   OpWriteIR IR_TXN_COMMAND; OpWriteDR opcode].

(** The operations of [write] up to the polling phase. *)
Definition write_request {arch : ArcJtag} (address data : Z) (opcode : bitarray)
  : list op :=
  [OpWriteIR IR_ADDRESS; OpWriteDR (encoded_address address);
   OpWriteIR IR_DATA; OpWriteDR (encoded_data data);
   OpWriteIR IR_TXN_COMMAND; OpWriteDR opcode].

(** What follows the wait in [read]. *)
Definition read_data {arch : ArcJtag} : unit -> itree arcE Z := fun _ =>
  write_ir IR_DATA ;;
  dr_data_bits <- read_dr 32 ;;
  Ret (getattr "Data" (from_bitarray DR_DATA dr_data_bits)).

(** ** A concrete architecture and catalog, to run the engine on examples *)

#[export] Instance arc_jtag : ArcJtag := {|
  IR_STATUS := [false; false; false; true];
  IR_TXN_COMMAND := [true; false; false; true];
  IR_ADDRESS := [false; true; false; true];
  IR_DATA := [true; true; false; true];
  IR_IDCODE := [false; false; true; true];
  DR_TXN_COMMAND_WRITE_MEMORY := [false; false; false; false];
  DR_TXN_COMMAND_WRITE_CORE := [true; false; false; false];
  DR_TXN_COMMAND_WRITE_AUX := [false; true; false; false];
  DR_TXN_COMMAND_READ_MEMORY := [false; false; true; false];
  DR_TXN_COMMAND_READ_CORE := [true; false; true; false];
  DR_TXN_COMMAND_READ_AUX := [false; true; true; false];
  DR_STATUS := {| bf_name := "DR_STATUS";
                  bf_fields := [("ST", 1); ("FL", 1); ("RD", 1); ("PC_SEL", 1)]%nat |};
  DR_IDCODE := {| bf_name := "DR_IDCODE";
                  bf_fields := [("present", 1); ("mfg_id", 11); ("part_id", 16);
                                ("version", 4)]%nat |};
  DR_STATUS_width := eq_refl;
  DR_IDCODE_width := eq_refl;
  DR_STATUS_flags := ltac:(intros f [<-|[<-|[]]]; cbn; auto);
  DR_IDCODE_ids := ltac:(intros f [<-|[<-|[]]]; cbn; auto)
|}.

Definition sample_devices : Catalog :=
  [((0x258, 0x0003), {| name := "ARC6xx" |})].

Definition status_word (st fl rd pc_sel : bool) : bitarray := [st; fl; rd; pc_sel].

Definition pending_bits : bitarray := status_word false false false false.
Definition ready_bits : bitarray := status_word false false true false.
Definition failed_bits : bitarray := status_word false true false false.

(** A TAP that says RD=0, FL=0 to the first [k] polls, RD=1 to the next, and
    then answers with the 32 bits of [data]. *)
Definition ready_after (k : nat) (data : Z) : nat -> bitarray :=
  fun i => if (i <? k)%nat then pending_bits
           else if (i =? k)%nat then ready_bits
           else Z_to_bits 32 data.

(** A TAP that says RD=0, FL=0 to the first [k] polls and FL=1 from then on. *)
Definition failed_after (k : nat) : nat -> bitarray :=
  fun i => if (i <? k)%nat then pending_bits else failed_bits.

(** A TAP that says RD=0, FL=0 for ever. *)
Definition never_ready : nat -> bitarray := fun _ => pending_bits.

(** A TAP whose only answer is the 32 bits of [v]. *)
Definition answers (v : Z) : nat -> bitarray := fun _ => Z_to_bits 32 v.

(** ** JTAGARCApplet

    The applet class around the interface: what it builds its help text
    from, how [run] gets to a TAP and how [interact] starts a session. *)

(** The formats of the [%] operator that the applet uses, on integers:
    [%d] is the decimal numeral, [%08x] the lower-case hexadecimal numeral
    filled with zeros up to eight characters, sign included. *)
Definition format_d (v : Z) : string := NilZero.string_of_int (Z.to_int v).

Definition hex_digits (v : N) : string :=
  match v with
  | N0 => "0"
  | Npos p => HexString.Raw.of_pos p ""
  end.

Fixpoint zeros (k : nat) : string :=
  match k with
  | O => ""
  | S k' => String "0"%char (zeros k')
  end.

Definition zfill (w : nat) (s : string) : string :=
  (zeros (w - String.length s) ++ s)%string.

Definition format_08x (v : Z) : string :=
  match v with
  | Zneg p => String "-"%char (zfill 7 (hex_digits (Npos p)))
  | _ => zfill 8 (hex_digits (Z.to_N v))
  end.

(** Modelled from the spec: [to_int] belongs to the [Bitfield] class, which
    is not among the sources; it is the register's bit sequence read as an
    integer, least significant bit first. *)
Definition to_int (B : Bitfield) (x : fields) : Z := bits_to_Z (to_bitarray B x).

Definition newline : string := String (Ascii.ascii_of_nat 10) "".

(** [x == s] for an attribute that holds a string or [None]. *)
Definition is_string (x : option string) (s : string) : bool :=
  match x with
  | Some v => String.eqb v s
  | None => false
  end.

(** [logging.DEBUG] and the [TRACE] level below it. *)
Variant log_level := DEBUG | TRACE.

(** [__name__] of the module. *)
Definition module_name : string := "glasgow.applet.jtag.arc".

Section InterfaceObject.

(** What [select_tap] hands back for a TAP of the chain. *)
Variable TAPInterface : Type.

(** The object [JTAGARCInterface.__init__] builds; a logger is known by its
    name. *)
Record JTAGARCInterface := {
  lower : TAPInterface;
  _logger : string;
  _level : log_level
}.

Definition __init__ (interface : TAPInterface) (logger : string)
  : JTAGARCInterface :=
  {| lower := interface;
     _logger := logger;
     _level := if String.eqb logger module_name then DEBUG else TRACE |}.

(** What the applet awaits besides the TAP: the [run] of the JTAG applet it
    extends, [test_reset] and [select_tap] of the interface that gives, and
    the interactive console. *)
Variant hostE : Type -> Type :=
| EvSuperRun : hostE unit
| EvTestReset : hostE unit
| EvSelectTap (index : Z) : hostE (option TAPInterface)
| EvConsole : hostE unit.

Definition appletE := arcE +' hostE.

(** A call of the interface from the applet. *)
Definition on_interface {R} (t : itree arcE R) : itree appletE R :=
  translate (fun T (e : arcE T) => inl1 e) t.

End InterfaceObject.

Arguments EvSuperRun {TAPInterface}.
Arguments EvTestReset {TAPInterface}.
Arguments EvSelectTap {TAPInterface} index.
Arguments EvConsole {TAPInterface}.
Arguments on_interface {TAPInterface R} t.

Module JTAGARCApplet.

Section Applet.

Context {arch : ArcJtag}.
Variable devices : Catalog.
Variable TAPInterface : Type.

(** The class attribute [logger = logging.getLogger(__name__)]. *)
Definition logger : string := module_name.

(** One line of the list of supported devices, and the class attribute
    [description]: the text before the list, the list, the text after. *)
Definition device_line (x : ARCDevice) : string :=
  ("        * " ++ name x ++ newline)%string.

Definition description_before : string :=
  (newline
   ++ "    Debug ARC processors via the JTAG interface." ++ newline
   ++ newline
   ++ "    The list of supported devices is:" ++ newline)%string.

Definition description_after : string :=
  (newline
   ++ newline
   ++ "    There is currently no debug server implemented. This applet only allows manipulating Memory,"
   ++ newline
   ++ "    Core and Aux spaces via a Python REPL." ++ newline
   ++ "    ")%string.

Definition description : string :=
  (description_before
   ++ String.concat newline (map device_line (map snd devices))
   ++ description_after)%string.

Definition run (tap_index : Z)
  : itree (appletE TAPInterface) (JTAGARCInterface TAPInterface) :=
  trigger EvSuperRun ;;
  trigger EvTestReset ;;
  tap_iface <- trigger (EvSelectTap tap_index) ;;
  match tap_iface with
  | None =>
      throw (GlasgowAppletError ("cannot select TAP #" ++ format_d tap_index)%string)
  | Some tap_iface => Ret (__init__ tap_iface logger)
  end.

Definition interact (operation : option string)
  : itree (appletE TAPInterface) unit :=
  r <- on_interface (identify devices) ;;
  let '(idcode, device) := r in
  match device with
  | None =>
      throw (GlasgowAppletError
               ("cannot operate on unknown device IDCODE="
                ++ format_08x (to_int DR_IDCODE idcode))%string)
  | Some device =>
      if is_string operation "repl" then trigger EvConsole else Ret tt
  end.

End Applet.

Arguments run {TAPInterface} tap_index.
Arguments interact {arch} devices {TAPInterface} operation.

End JTAGARCApplet.

(** What [interact] does once [identify] has answered. *)
Definition after_identify {arch : ArcJtag} {TAPInterface : Type}
    (devices : Catalog) (operation : option string)
    (r : fields * option ARCDevice) : itree (appletE TAPInterface) unit :=
  let '(idcode, device) := r in
  match device with
  | None =>
      throw (GlasgowAppletError
               ("cannot operate on unknown device IDCODE="
                ++ format_08x (to_int DR_IDCODE idcode))%string)
  | Some device =>
      if is_string operation "repl" then trigger EvConsole else Ret tt
  end.

(** What a run of the applet does, in order: operations of the interface on
    the TAP, and its own. *)
Variant applet_op :=
| OnTap (o : op)
| SuperRun
| TestReset
| SelectTap (index : Z)
| Console.

Section RunApplet.

Variable TAPInterface : Type.

Definition step_tap_applet {R X} (e : tapE X)
  : (X -> itree (appletE TAPInterface) R) -> (nat -> bitarray) -> nat
    -> applet_op * nat * itree (appletE TAPInterface) R :=
  match e in tapE X
        return (X -> itree (appletE TAPInterface) R) -> (nat -> bitarray) -> nat
               -> applet_op * nat * itree (appletE TAPInterface) R with
  | EvWriteIR code => fun k _ n => (OnTap (OpWriteIR code), n, k tt)
  | EvReadDR w => fun k resp n => (OnTap (OpReadDR w (resp n)), S n, k (resp n))
  | EvWriteDR bits => fun k _ n => (OnTap (OpWriteDR bits), n, k tt)
  end.

(** [taps index] is what [select_tap(index)] gives: a TAP or nothing. *)
Definition step_host {R X} (e : hostE TAPInterface X)
  : (X -> itree (appletE TAPInterface) R) -> (Z -> option TAPInterface)
    -> applet_op * itree (appletE TAPInterface) R :=
  match e in hostE _ X
        return (X -> itree (appletE TAPInterface) R) -> (Z -> option TAPInterface)
               -> applet_op * itree (appletE TAPInterface) R with
  | EvSuperRun => fun k _ => (SuperRun, k tt)
  | EvTestReset => fun k _ => (TestReset, k tt)
  | EvSelectTap index => fun k taps => (SelectTap index, k (taps index))
  | EvConsole => fun k _ => (Console, k tt)
  end.

Fixpoint run_applet {R} (fuel : nat) (taps : Z -> option TAPInterface)
    (resp : nat -> bitarray) (n : nat) (t : itree (appletE TAPInterface) R)
  : list applet_op * outcome R :=
  match fuel with
  | O => ([], Running)
  | S fuel' =>
      match observe t with
      | RetF r => ([], Returned r)
      | TauF t' => run_applet fuel' taps resp n t'
      | VisF e k =>
          match e with
          | inl1 (inl1 e') =>
              let '(o, n', t') := step_tap_applet e' k resp n in
              let r := run_applet fuel' taps resp n' t' in
              (o :: fst r, snd r)
          | inl1 (inr1 (Throw ex)) => ([], Raised ex)
          | inr1 e' =>
              let '(o, t') := step_host e' k taps in
              let r := run_applet fuel' taps resp n t' in
              (o :: fst r, snd r)
          end
      end
  end.

End RunApplet.

(** A chain with the one TAP number 0. *)
Definition one_tap : Z -> option unit :=
  fun index => if index =? 0 then Some tt else None.

(** ** How runs compose *)

Lemma observe_bind_cases {E R S} (t : itree E R) (k : R -> itree E S) :
  observe (ITree.bind t k) =
  match observe t with
  | RetF r => observe (k r)
  | TauF t' => TauF (ITree.bind t' k)
  | VisF e h => VisF e (fun x => ITree.bind (h x) k)
  end.
Proof. rewrite observe_bind. destruct (observe t); reflexivity. Qed.

Lemma observe_iter {E I R} (body : I -> itree E (I + R)) (i : I) :
  observe (ITree.iter body i) =
  observe (ITree.bind (body i) (fun lr =>
             match lr with
             | inl l => Tau (ITree.iter body l)
             | inr r => Ret r
             end)).
Proof. reflexivity. Qed.

Lemma run_S {R} fuel resp n (t : itree arcE R) :
  run (S fuel) resp n t =
  match observe t with
  | RetF r => ([], Returned r)
  | TauF t' => run fuel resp n t'
  | VisF e k =>
      match e with
      | inl1 e' =>
          let '(o, n', t') := step_tap e' k resp n in
          issue o (run fuel resp n' t')
      | inr1 (Throw ex) => ([], Raised ex)
      end
  end.
Proof. reflexivity. Qed.

Lemma run_mono {R} fuel : forall resp n (t : itree arcE R) tr out,
  run fuel resp n t = (tr, out) -> out <> Running ->
  forall fuel', (fuel <= fuel')%nat -> run fuel' resp n t = (tr, out).
Proof.
  induction fuel as [|fuel IH]; intros resp n t tr out Hrun Hout fuel' Hle.
  - cbn in Hrun. congruence.
  - destruct fuel' as [|fuel']; [lia|].
    rewrite run_S in *.
    destruct (observe t) as [r|t'|X e k]; auto.
    + apply IH; auto. lia.
    + destruct e as [e'|ex]; [|destruct ex; auto].
      destruct (step_tap e' k resp n) as [[o n'] t'].
      destruct (run fuel resp n' t') as [tr1 out1] eqn:E1.
      unfold issue in Hrun. cbn in Hrun. inversion Hrun; subst.
      rewrite (IH _ _ _ _ _ E1 Hout fuel') by lia. reflexivity.
Qed.

(** A run only looks at a tree through [observe]. *)
Lemma run_observe {R} (t t' : itree arcE R) :
  observe t = observe t' ->
  forall fuel resp n, run fuel resp n t = run fuel resp n t'.
Proof.
  intros Hobs [|fuel] resp n; [reflexivity|].
  rewrite !run_S, Hobs. reflexivity.
Qed.

Lemma run_bind_Ret {R T} (r : R) (k : R -> itree arcE T) fuel resp n :
  run fuel resp n (ITree.bind (Ret r) k) = run fuel resp n (k r).
Proof. apply run_observe. reflexivity. Qed.

Lemma run_bind_bind_Ret {R T U} (r : R) (k1 : R -> itree arcE T)
    (k2 : T -> itree arcE U) fuel resp n :
  run fuel resp n (ITree.bind (ITree.bind (Ret r) k1) k2)
  = run fuel resp n (ITree.bind (k1 r) k2).
Proof. apply run_observe. rewrite !observe_bind_cases. reflexivity. Qed.

Lemma run_Tau {R} (t : itree arcE R) fuel resp n :
  run (S fuel) resp n (Tau t) = run fuel resp n t.
Proof. reflexivity. Qed.

Lemma run_write_ir {R} code (k : unit -> itree arcE R) fuel resp n :
  run (S fuel) resp n (ITree.bind (write_ir code) k)
  = issue (OpWriteIR code) (run fuel resp n (k tt)).
Proof.
  rewrite run_S, observe_bind_cases. cbn.
  rewrite run_bind_Ret. reflexivity.
Qed.

Lemma run_write_dr {R} bits (k : unit -> itree arcE R) fuel resp n :
  run (S fuel) resp n (ITree.bind (write_dr bits) k)
  = issue (OpWriteDR bits) (run fuel resp n (k tt)).
Proof.
  rewrite run_S, observe_bind_cases. cbn.
  rewrite run_bind_Ret. reflexivity.
Qed.

Lemma run_read_dr {R} w (k : bitarray -> itree arcE R) fuel resp n :
  run (S fuel) resp n (ITree.bind (read_dr w) k)
  = issue (OpReadDR w (resp n)) (run fuel resp (S n) (k (resp n))).
Proof.
  rewrite run_S, observe_bind_cases. cbn.
  rewrite run_bind_Ret. reflexivity.
Qed.

Lemma run_throw {R} (e : exn) fuel resp n :
  run (S fuel) resp n (throw e : itree arcE R) = ([], Raised e).
Proof. reflexivity. Qed.

Lemma run_bind_throw {R T} (e : exn) (k : R -> itree arcE T) fuel resp n :
  run (S fuel) resp n (ITree.bind (throw e) k) = ([], Raised e).
Proof. rewrite run_S, observe_bind_cases. reflexivity. Qed.

Lemma step_tap_bind {R T X} (e : tapE X) (h : X -> itree arcE R)
    (k : R -> itree arcE T) resp n :
  step_tap e (fun x => ITree.bind (h x) k) resp n
  = let '(o, n', t') := step_tap e h resp n in (o, n', ITree.bind t' k).
Proof. destruct e; reflexivity. Qed.

Lemma step_tap_reads {R X} (e : tapE X) (h : X -> itree arcE R) resp n :
  snd (fst (step_tap e h resp n))
  = (n + reads_done [fst (fst (step_tap e h resp n))])%nat.
Proof. destruct e; cbn; lia. Qed.

(** When the first part of a sequence raises, or is still running, so does
    the sequence, with the same operations issued. *)
Lemma run_bind_stops {R T} (k : R -> itree arcE T) fuel :
  forall resp n (t : itree arcE R) tr,
  (forall e, run fuel resp n t = (tr, Raised e) ->
             run fuel resp n (ITree.bind t k) = (tr, Raised e)) /\
  (run fuel resp n t = (tr, Running) ->
   run fuel resp n (ITree.bind t k) = (tr, Running)).
Proof.
  induction fuel as [|fuel IH]; intros resp n t tr.
  - cbn. split; [intros e H; discriminate H | intros H; inversion H; reflexivity].
  - rewrite !run_S, observe_bind_cases.
    destruct (observe t) as [r|t'|X e h].
    + split; [intros; discriminate | discriminate].
    + apply IH.
    + destruct e as [e'|ex];
        [|destruct ex; split; [intros e0 H|intros H]; inversion H; reflexivity].
      rewrite step_tap_bind.
      destruct (step_tap e' h resp n) as [[o n'] t'].
      destruct (run fuel resp n' t') as [tr1 out1] eqn:E1.
      unfold issue; cbn.
      split; [intros e0 Heq | intros Heq]; inversion Heq; subst.
      * rewrite (proj1 (IH _ _ _ _) _ E1). reflexivity.
      * rewrite (proj2 (IH _ _ _ _) E1). reflexivity.
Qed.

(** When the first part returns, the rest runs on from the port as the first
    part left it. *)
Lemma run_bind_returned {R T} (k : R -> itree arcE T) f1 :
  forall resp n (t : itree arcE R) tr1 r f2 tr2 out,
  run f1 resp n t = (tr1, Returned r) ->
  run f2 resp (n + reads_done tr1) (k r) = (tr2, out) ->
  out <> Running ->
  run (f1 + f2) resp n (ITree.bind t k) = (tr1 ++ tr2, out).
Proof.
  induction f1 as [|f1 IH]; intros resp n t tr1 r f2 tr2 out H1 H2 Hout.
  - discriminate.
  - change (S f1 + f2)%nat with (S (f1 + f2)).
    rewrite run_S in H1. rewrite run_S, observe_bind_cases.
    destruct (observe t) as [r0|t'|X e h].
    + inversion H1; subst. cbn in H2. rewrite Nat.add_0_r in H2.
      rewrite <- run_S. cbn [app].
      apply (run_mono _ _ _ H2 Hout). lia.
    + eapply IH; eauto.
    + destruct e as [e'|ex]; [|destruct ex; discriminate].
      rewrite step_tap_bind.
      pose proof (step_tap_reads e' h resp n) as Hn.
      destruct (step_tap e' h resp n) as [[o n'] t'].
      destruct (run f1 resp n' t') as [tr1' out1] eqn:E1.
      unfold issue in *; cbn in *. inversion H1; subst.
      assert (H2' : run f2 resp
                      (n + match o with OpReadDR _ _ => 1 | _ => 0 end
                         + reads_done tr1')%nat (k r) = (tr2, out)).
      { rewrite <- H2. f_equal. destruct o; cbn; lia. }
      rewrite (IH _ _ _ _ _ _ _ _ E1 H2' Hout). reflexivity.
Qed.

(** ** Runs that end *)

Lemma ends_with_intro {R} fuel resp n (t : itree arcE R) tr out :
  run fuel resp n t = (tr, out) -> out <> Running -> ends_with resp n t tr out.
Proof.
  intros Hrun Hout. split; [assumption|].
  exists fuel. intros fuel' Hle. exact (run_mono _ _ _ Hrun Hout Hle).
Qed.

Lemma ends_with_run {R} resp n (t : itree arcE R) tr out :
  ends_with resp n t tr out ->
  exists fuel, run fuel resp n t = (tr, out) /\ out <> Running.
Proof.
  intros [Hout [fuel H]]. exists fuel. split; [apply H; lia | assumption].
Qed.

(** A run ends in one way only. *)
Lemma ends_with_unique {R} resp n (t : itree arcE R) tr out tr' out' :
  ends_with resp n t tr out -> ends_with resp n t tr' out' ->
  tr = tr' /\ out = out'.
Proof.
  intros [_ [f H]] [_ [f' H']].
  pose proof (H (max f f') (Nat.le_max_l _ _)) as E.
  rewrite (H' (max f f') (Nat.le_max_r _ _)) in E.
  inversion E; auto.
Qed.

Lemma ends_with_Ret {R} resp n (r : R) :
  ends_with resp n (Ret r : itree arcE R) [] (Returned r).
Proof. apply (ends_with_intro 1); [reflexivity | discriminate]. Qed.

Lemma ends_with_throw {R} resp n (e : exn) :
  ends_with resp n (throw e : itree arcE R) [] (Raised e).
Proof. apply (ends_with_intro 1); [reflexivity | discriminate]. Qed.

Lemma ends_with_bind {R T} resp n (t : itree arcE R) (k : R -> itree arcE T)
    tr1 r tr2 out :
  ends_with resp n t tr1 (Returned r) ->
  ends_with resp (n + reads_done tr1) (k r) tr2 out ->
  ends_with resp n (ITree.bind t k) (tr1 ++ tr2) out.
Proof.
  intros H1 H2.
  destruct (ends_with_run H1) as [f1 [E1 _]].
  destruct (ends_with_run H2) as [f2 [E2 Hout]].
  apply (ends_with_intro (f1 + f2)); [|assumption].
  eapply run_bind_returned; eassumption.
Qed.

Lemma ends_with_bind_raised {R T} resp n (t : itree arcE R)
    (k : R -> itree arcE T) tr e :
  ends_with resp n t tr (Raised e) ->
  ends_with resp n (ITree.bind t k) tr (Raised e).
Proof.
  intros H. destruct (ends_with_run H) as [f [E _]].
  apply (ends_with_intro f); [|discriminate].
  apply run_bind_stops. exact E.
Qed.

(** One operation on the port, then a run that ends. *)
Ltac one_more_operation step :=
  let H := fresh "H" in
  let f := fresh "f" in
  let E := fresh "E" in
  let Hout := fresh "Hout" in
  intros H; destruct (ends_with_run H) as [f [E Hout]];
  apply (ends_with_intro (S f)); [|assumption];
  step; rewrite E; reflexivity.

Lemma ends_with_write_ir {R} resp n code (k : unit -> itree arcE R) tr out :
  ends_with resp n (k tt) tr out ->
  ends_with resp n (ITree.bind (write_ir code) k) (OpWriteIR code :: tr) out.
Proof. one_more_operation ltac:(rewrite run_write_ir). Qed.

Lemma ends_with_write_dr {R} resp n bits (k : unit -> itree arcE R) tr out :
  ends_with resp n (k tt) tr out ->
  ends_with resp n (ITree.bind (write_dr bits) k) (OpWriteDR bits :: tr) out.
Proof. one_more_operation ltac:(rewrite run_write_dr). Qed.

Lemma ends_with_read_dr {R} resp n w (k : bitarray -> itree arcE R) tr out :
  ends_with resp (S n) (k (resp n)) tr out ->
  ends_with resp n (ITree.bind (read_dr w) k) (OpReadDR w (resp n) :: tr) out.
Proof. one_more_operation ltac:(rewrite run_read_dr). Qed.

Create HintDb tap.
#[export] Hint Resolve ends_with_Ret ends_with_throw ends_with_write_ir
  ends_with_write_dr ends_with_read_dr : tap.

(** ** The polling loop *)

Lemma getattr_make_nil B name : getattr name (make B []) = 0.
Proof.
  unfold make. induction (bf_fields B) as [|[f w] l IH]; cbn; [reflexivity|].
  destruct (String.eqb f name); [reflexivity | exact IH].
Qed.

Lemma polls_S resp n m :
  polls resp n (S m) = polls resp n m ++ [OpReadDR 4 (resp (n + m)%nat)].
Proof. unfold polls. rewrite seq_S, map_app. reflexivity. Qed.

Lemma polls_cons resp n m :
  polls resp n (S m) = OpReadDR 4 (resp n) :: polls resp (S n) m.
Proof. reflexivity. Qed.

Lemma reads_done_polls resp n m : reads_done (polls resp n m) = m.
Proof.
  revert n. induction m as [|m IH]; intros n; [reflexivity|].
  rewrite polls_cons. cbn. rewrite IH. reflexivity.
Qed.

Lemma reads_done_app tr1 tr2 :
  reads_done (tr1 ++ tr2) = (reads_done tr1 + reads_done tr2)%nat.
Proof.
  induction tr1 as [|[c|w a|b] tr1 IH]; cbn; rewrite ?IH; reflexivity.
Qed.

Section PollLoop.

Context {arch : ArcJtag}.
Variable resp : nat -> bitarray.

(** The loop only looks at the truth value of [status.RD]. *)
Lemma run_loop_state (st st' : fields) fuel n :
  truthy (getattr "RD" st) = truthy (getattr "RD" st') ->
  run fuel resp n (ITree.iter wait_body st)
  = run fuel resp n (ITree.iter wait_body st').
Proof.
  intros H. apply run_observe. rewrite !observe_iter.
  unfold wait_body. rewrite H. reflexivity.
Qed.

(** With [RD] set the loop is left. *)
Lemma run_loop_done (st : fields) fuel n :
  truthy (getattr "RD" st) = true ->
  run (S fuel) resp n (ITree.iter wait_body st) = ([], Returned tt).
Proof.
  intros H.
  rewrite (run_observe _ _ (observe_iter wait_body st)).
  unfold wait_body. rewrite H. reflexivity.
Qed.

(** With [RD] clear the loop shifts four bits out of DR, and goes on from
    the status it decodes, unless [FL] is set. *)
Lemma run_loop_poll (st : fields) fuel n :
  truthy (getattr "RD" st) = false ->
  run (S fuel) resp n (ITree.iter wait_body st)
  = issue (OpReadDR 4 (resp n))
      (run fuel resp (S n)
         (if status_FL (resp n)
          then throw (GlasgowAppletError "transaction failed")
          else Tau (ITree.iter wait_body (from_bitarray DR_STATUS (resp n))))).
Proof.
  intros H.
  rewrite (run_observe _ _ (observe_iter wait_body st)).
  unfold wait_body at 1. rewrite H. cbn [negb].
  rewrite run_S, !observe_bind_cases. cbn.
  f_equal. etransitivity; [refine (run_bind_bind_Ret (resp n) _ _ _ _ _)|].
  unfold status_FL. cbv beta.
  destruct (truthy (getattr "FL" (from_bitarray DR_STATUS (resp n)))).
  - destruct fuel; [reflexivity | apply run_bind_throw].
  - etransitivity; [apply run_bind_Ret | reflexivity].
Qed.

Lemma run_poll_loop_pending m : forall n fuel,
  pending_until resp n m ->
  run (2 * m + fuel) resp n poll_loop
  = (polls resp n m ++ fst (run fuel resp (n + m) poll_loop),
     snd (run fuel resp (n + m) poll_loop)).
Proof.
  induction m as [|m IH]; intros n fuel Hp.
  - cbn [Nat.mul Nat.add polls seq map app]. rewrite Nat.add_0_r.
    destruct (run fuel resp n poll_loop); reflexivity.
  - replace (2 * S m + fuel)%nat with (S (S (2 * m + fuel))) by lia.
    destruct (Hp O ltac:(lia)) as [Hrd Hfl]. rewrite Nat.add_0_r in Hrd, Hfl.
    unfold poll_loop at 1.
    rewrite run_loop_poll by (rewrite getattr_make_nil; reflexivity).
    rewrite Hfl, run_Tau.
    rewrite (run_loop_state _ (make DR_STATUS []))
      by (rewrite getattr_make_nil; exact Hrd).
    fold poll_loop. rewrite IH.
    + replace (S n + m)%nat with (n + S m)%nat by lia. reflexivity.
    + intros i Hi. replace (S n + i)%nat with (n + S i)%nat by lia.
      apply Hp. lia.
Qed.

Lemma run_poll_loop_ready n fuel :
  ready (resp n) ->
  run (S (S (S fuel))) resp n poll_loop = ([OpReadDR 4 (resp n)], Returned tt).
Proof.
  intros [Hrd Hfl]. unfold poll_loop.
  rewrite run_loop_poll by (rewrite getattr_make_nil; reflexivity).
  rewrite Hfl, run_Tau, run_loop_done by exact Hrd. reflexivity.
Qed.

Lemma run_poll_loop_failed n fuel :
  status_FL (resp n) = true ->
  run (S (S fuel)) resp n poll_loop
  = ([OpReadDR 4 (resp n)], Raised (GlasgowAppletError "transaction failed")).
Proof.
  intros Hfl. unfold poll_loop.
  rewrite run_loop_poll by (rewrite getattr_make_nil; reflexivity).
  rewrite Hfl. reflexivity.
Qed.

Lemma run_poll_loop_1 n :
  run 1 resp n poll_loop = ([OpReadDR 4 (resp n)], Running).
Proof.
  unfold poll_loop.
  rewrite run_loop_poll by (rewrite getattr_make_nil; reflexivity).
  reflexivity.
Qed.

Lemma run_wait_txn fuel n :
  run (S fuel) resp n _wait_txn
  = issue (OpWriteIR IR_STATUS) (run fuel resp n poll_loop).
Proof. unfold _wait_txn. rewrite run_write_ir. reflexivity. Qed.

End PollLoop.

(** ** What [_wait_txn] does, from the answers to its polls *)

Section WaitTxn.

Context {arch : ArcJtag}.
Variable resp : nat -> bitarray.

Lemma run_wait_txn_pending n m fuel :
  pending_until resp n m ->
  run (S (2 * m + fuel)) resp n _wait_txn
  = (OpWriteIR IR_STATUS :: polls resp n m
       ++ fst (run fuel resp (n + m) poll_loop),
     snd (run fuel resp (n + m) poll_loop)).
Proof.
  intros Hp. rewrite run_wait_txn, run_poll_loop_pending by exact Hp.
  reflexivity.
Qed.

Lemma wait_txn_ready n m :
  pending_until resp n m -> ready (resp (n + m)%nat) ->
  ends_with resp n _wait_txn
    (OpWriteIR IR_STATUS :: polls resp n (S m)) (Returned tt).
Proof.
  intros Hp Hr. apply (ends_with_intro (S (2 * m + 3))); [|discriminate].
  rewrite run_wait_txn_pending by exact Hp.
  rewrite (run_poll_loop_ready _ _ O Hr), polls_S. reflexivity.
Qed.

Lemma wait_txn_failed n m :
  pending_until resp n m -> status_FL (resp (n + m)%nat) = true ->
  ends_with resp n _wait_txn
    (OpWriteIR IR_STATUS :: polls resp n (S m))
    (Raised (GlasgowAppletError "transaction failed")).
Proof.
  intros Hp Hf. apply (ends_with_intro (S (2 * m + 2))); [|discriminate].
  rewrite run_wait_txn_pending by exact Hp.
  rewrite (run_poll_loop_failed _ _ O Hf), polls_S. reflexivity.
Qed.

Lemma pending_until_O n : pending_until resp n O.
Proof. intros i Hi; lia. Qed.

Lemma pending_until_S n m :
  pending (resp n) -> pending_until resp (S n) m -> pending_until resp n (S m).
Proof.
  intros H0 Hp [|i] Hi.
  - rewrite Nat.add_0_r. exact H0.
  - replace (n + S i)%nat with (S n + i)%nat by lia. apply Hp. lia.
Qed.

(** Every run of the loop, read backwards: what was issued and how the run
    stands tell what the polls answered. *)
Lemma run_loop_inv fuel : forall n st tr out,
  truthy (getattr "RD" st) = false ->
  run fuel resp n (ITree.iter wait_body st) = (tr, out) ->
  match out with
  | Running => exists m, tr = polls resp n m /\ pending_until resp n (pred m)
  | Returned _ =>
      exists m, tr = polls resp n (S m) /\ pending_until resp n m /\
                ready (resp (n + m)%nat)
  | Raised e =>
      exists m, tr = polls resp n (S m) /\ pending_until resp n m /\
                status_FL (resp (n + m)%nat) = true /\
                e = GlasgowAppletError "transaction failed"
  end.
Proof.
  induction fuel as [fuel IH] using lt_wf_ind. intros n st tr out Hst Hrun.
  destruct fuel as [|fuel].
  { inversion Hrun; subst. exists O. split; [reflexivity|].
    apply pending_until_O. }
  rewrite run_loop_poll in Hrun by exact Hst.
  destruct fuel as [|fuel].
  { inversion Hrun; subst. exists 1%nat. split; [reflexivity|].
    apply pending_until_O. }
  destruct (status_FL (resp n)) eqn:Hfl.
  { inversion Hrun; subst. exists O. rewrite Nat.add_0_r.
    split; [reflexivity|]. split; [apply pending_until_O|].
    split; [exact Hfl | reflexivity]. }
  rewrite run_Tau in Hrun.
  destruct (run fuel resp (S n) (ITree.iter wait_body (from_bitarray DR_STATUS (resp n))))
    as [tr1 out1] eqn:E1.
  unfold issue in Hrun; cbn in Hrun. inversion Hrun; subst tr out; clear Hrun.
  destruct (status_RD (resp n)) eqn:Hrd.
  - (* the loop is left at its head *)
    destruct fuel as [|fuel].
    { inversion E1; subst. exists 1%nat. split; [reflexivity|].
      apply pending_until_O. }
    rewrite run_loop_done in E1 by exact Hrd. inversion E1; subst.
    exists O. rewrite Nat.add_0_r.
    split; [reflexivity|]. split; [apply pending_until_O|].
    split; assumption.
  - assert (H0 : pending (resp n)) by (split; assumption).
    apply IH in E1; [|lia|exact Hrd].
    destruct out1 as [r|e|].
    + destruct E1 as [m [-> [Hp Hr]]]. exists (S m).
      replace (n + S m)%nat with (S n + m)%nat by lia.
      split; [reflexivity|]. split; [apply pending_until_S; assumption|].
      exact Hr.
    + destruct E1 as [m [-> [Hp [Hf ->]]]]. exists (S m).
      replace (n + S m)%nat with (S n + m)%nat by lia.
      split; [reflexivity|]. split; [apply pending_until_S; assumption|].
      split; [exact Hf | reflexivity].
    + destruct E1 as [m [-> Hp]]. exists (S m). split; [reflexivity|].
      cbn [pred]. destruct m as [|m]; [apply pending_until_O|].
      cbn [pred] in Hp. apply pending_until_S; assumption.
Qed.

Lemma run_wait_txn_inv fuel n tr out :
  run (S fuel) resp n _wait_txn = (tr, out) ->
  match out with
  | Running =>
      exists m, tr = OpWriteIR IR_STATUS :: polls resp n m /\
                pending_until resp n (pred m)
  | Returned _ =>
      exists m, tr = OpWriteIR IR_STATUS :: polls resp n (S m) /\
                pending_until resp n m /\ ready (resp (n + m)%nat)
  | Raised e =>
      exists m, tr = OpWriteIR IR_STATUS :: polls resp n (S m) /\
                pending_until resp n m /\
                status_FL (resp (n + m)%nat) = true /\
                e = GlasgowAppletError "transaction failed"
  end.
Proof.
  rewrite run_wait_txn.
  destruct (run fuel resp n poll_loop) as [tr1 out1] eqn:E1.
  unfold issue; cbn. intros H; inversion H; subst tr out; clear H.
  unfold poll_loop in E1.
  apply run_loop_inv in E1; [|rewrite getattr_make_nil; reflexivity].
  destruct out1 as [r|e|].
  - destruct E1 as [m [-> H]]. exists m. auto.
  - destruct E1 as [m [-> H]]. exists m. auto.
  - destruct E1 as [m [-> H]]. exists m. auto.
Qed.

(** The first poll that does not say RD=0 and FL=0, when there is one. *)
Lemma first_not_pending n m :
  pending_until resp n m \/
  exists j, (j < m)%nat /\ pending_until resp n j /\
            (status_RD (resp (n + j)%nat) = true \/
             status_FL (resp (n + j)%nat) = true).
Proof.
  induction m as [|m [IH|IH]].
  - left. intros i Hi; lia.
  - destruct (status_RD (resp (n + m)%nat)) eqn:Hrd;
      [right; exists m; auto|].
    destruct (status_FL (resp (n + m)%nat)) eqn:Hfl;
      [right; exists m; auto|].
    left. intros i Hi.
    destruct (Nat.eq_dec i m) as [->|Hne]; [split; assumption|].
    apply IH. lia.
  - right. destruct IH as [j [Hj H]]. exists j. split; [lia | exact H].
Qed.

End WaitTxn.

(** ** The register codec *)

Lemma length_Z_to_bits w : forall v, List.length (Z_to_bits w v) = w.
Proof. induction w as [|w IH]; intros v; cbn; [|rewrite IH]; reflexivity. Qed.

Lemma bits_to_Z_range bits : 0 <= bits_to_Z bits < 2 ^ Z.of_nat (List.length bits).
Proof.
  induction bits as [|b bits IH]; [cbn; lia|].
  cbn [bits_to_Z List.length]. rewrite Nat2Z.inj_succ, Z.pow_succ_r by lia.
  destruct b; cbn [Z.b2z]; lia.
Qed.

Lemma bits_to_Z_to_bits w : forall v,
  0 <= v < 2 ^ Z.of_nat w -> bits_to_Z (Z_to_bits w v) = v.
Proof.
  induction w as [|w IH]; intros v Hv.
  - cbn in *. lia.
  - cbn [Z_to_bits bits_to_Z].
    rewrite Nat2Z.inj_succ, Z.pow_succ_r in Hv by lia.
    pose proof (Z.div2_odd v) as Hd.
    rewrite IH; [lia|].
    destruct (Z.odd v); cbn [Z.b2z] in Hd; lia.
Qed.

Lemma Z_to_bits_to_Z bits : Z_to_bits (List.length bits) (bits_to_Z bits) = bits.
Proof.
  induction bits as [|b bits IH]; [reflexivity|].
  cbn [List.length Z_to_bits bits_to_Z]. f_equal.
  - rewrite Z.odd_add_mul_2. destruct b; reflexivity.
  - replace (Z.div2 (Z.b2z b + 2 * bits_to_Z bits)) with (bits_to_Z bits);
      [exact IH|].
    rewrite Z.div2_div.
    apply Z.div_unique with (r := Z.b2z b); [destruct b; cbn; lia | lia].
Qed.

Lemma firstn_skipn_app_length {A} (l1 l2 : list A) :
  firstn (List.length l1) (l1 ++ l2) = l1 /\ skipn (List.length l1) (l1 ++ l2) = l2.
Proof.
  induction l1 as [|a l1 [IH1 IH2]]; cbn; [auto|].
  rewrite IH1, IH2. auto.
Qed.

Lemma encode_fresh name v x layout :
  ~ In name (map fst layout) ->
  encode layout ((name, v) :: x) = encode layout x.
Proof.
  induction layout as [|[f w] layout IH]; intros Hn; [reflexivity|].
  cbn [encode getattr].
  destruct (String.eqb_spec name f) as [->|Hne].
  - exfalso. apply Hn. left. reflexivity.
  - rewrite IH; [reflexivity|]. intros Hin. apply Hn. right. exact Hin.
Qed.

(** Decoding what was encoded gives the fields back. *)
Lemma decode_encode layout : forall x,
  NoDup (map fst layout) -> valid_fields layout x ->
  decode layout (encode layout x) = x.
Proof.
  induction layout as [|[f w] layout IH]; intros [|[f' v] x] Hnd Hv;
    cbn in Hv; try contradiction; [reflexivity|].
  destruct Hv as [<- [Hv Hx]].
  inversion Hnd as [|? ? Hnotin Hnd']; subst.
  cbn [encode decode getattr]. rewrite String.eqb_refl.
  rewrite encode_fresh by exact Hnotin.
  pose proof (firstn_skipn_app_length (Z_to_bits w v) (encode layout x)) as [H1 H2].
  rewrite length_Z_to_bits in H1, H2.
  rewrite H1, H2, bits_to_Z_to_bits by exact Hv.
  rewrite IH by assumption. reflexivity.
Qed.

Lemma length_encode layout x :
  List.length (encode layout x)
  = fold_right (fun f acc => (snd f + acc)%nat) O layout.
Proof.
  induction layout as [|[f w] layout IH]; [reflexivity|].
  cbn [encode fold_right snd]. rewrite length_app, length_Z_to_bits, IH.
  reflexivity.
Qed.

(** Decoding never fails, and gives every field a value of its width. *)
Lemma decode_valid layout : forall bits, valid_fields layout (decode layout bits).
Proof.
  induction layout as [|[f w] layout IH]; intros bits; cbn; [exact I|].
  split; [reflexivity|]. split; [|apply IH].
  pose proof (bits_to_Z_range (firstn w bits)) as Hr.
  pose proof (firstn_le_length w bits) as Hl.
  split; [lia|].
  apply Z.lt_le_trans with (1 := proj2 Hr).
  apply Z.pow_le_mono_r; lia.
Qed.

(** Encoding what was decoded from a sequence of the register's width gives
    the sequence back: decoding extracts bit fields and nothing else. *)
Lemma encode_decode layout : forall bits,
  NoDup (map fst layout) ->
  List.length bits = fold_right (fun f acc => (snd f + acc)%nat) O layout ->
  encode layout (decode layout bits) = bits.
Proof.
  induction layout as [|[f w] layout IH]; intros bits Hnd Hlen.
  - destruct bits; [reflexivity | discriminate].
  - inversion Hnd as [|? ? Hnotin Hnd']; subst.
    cbn [fold_right snd] in Hlen.
    cbn [decode encode getattr]. rewrite String.eqb_refl.
    rewrite encode_fresh by exact Hnotin.
    rewrite IH; [|assumption|rewrite length_skipn; lia].
    assert (Hw : List.length (firstn w bits) = w) by (rewrite length_firstn; lia).
    rewrite <- Hw at 1. rewrite Z_to_bits_to_Z.
    apply firstn_skipn.
Qed.

(** ** Sequencing in [read] and [write] *)

Lemma ends_with_bind_Ret {R T} resp n (r : R) (k : R -> itree arcE T) tr out :
  ends_with resp n (k r) tr out ->
  ends_with resp n (ITree.bind (Ret r) k) tr out.
Proof.
  intros H. destruct (ends_with_run H) as [f [E Hout]].
  apply (ends_with_intro f); [|assumption].
  rewrite run_bind_Ret. exact E.
Qed.

Lemma lookup_absent devices mfg_id part_id :
  (forall d, ~ In ((mfg_id, part_id), d) devices) ->
  lookup devices mfg_id part_id = None.
Proof.
  induction devices as [|[[m p] d] devices IH]; intros Habs; [reflexivity|].
  cbn [lookup].
  destruct (Z.eqb_spec m mfg_id) as [->|Hm];
    [destruct (Z.eqb_spec p part_id) as [->|Hp]|]; cbn [andb].
  - exfalso. apply (Habs d). left. reflexivity.
  - apply IH. intros d' Hin. apply (Habs d'). right. exact Hin.
  - apply IH. intros d' Hin. apply (Habs d'). right. exact Hin.
Qed.

Lemma encoded_address_bits address : encoded_address address = Z_to_bits 32 address.
Proof.
  unfold encoded_address, to_bitarray, make.
  cbn [DR_ADDRESS bf_fields map fst encode getattr].
  rewrite String.eqb_refl. apply app_nil_r.
Qed.

Lemma encoded_data_bits data : encoded_data data = Z_to_bits 32 data.
Proof.
  unfold encoded_data, to_bitarray, make.
  cbn [DR_DATA bf_fields map fst encode getattr].
  rewrite String.eqb_refl. apply app_nil_r.
Qed.

Lemma Data_of_bits v :
  0 <= v < 2 ^ 32 -> getattr "Data" (from_bitarray DR_DATA (Z_to_bits 32 v)) = v.
Proof.
  intros Hv. unfold from_bitarray. cbn [bf_fields DR_DATA decode getattr].
  rewrite String.eqb_refl.
  pose proof (firstn_skipn_app_length (Z_to_bits 32 v) []) as [H1 _].
  rewrite app_nil_r, length_Z_to_bits in H1. rewrite H1.
  apply bits_to_Z_to_bits. exact Hv.
Qed.

Lemma Address_of_bits v :
  0 <= v < 2 ^ 32 ->
  getattr "Address" (from_bitarray DR_ADDRESS (Z_to_bits 32 v)) = v.
Proof.
  intros Hv. unfold from_bitarray. cbn [bf_fields DR_ADDRESS decode getattr].
  rewrite String.eqb_refl.
  pose proof (firstn_skipn_app_length (Z_to_bits 32 v) []) as [H1 _].
  rewrite app_nil_r, length_Z_to_bits in H1. rewrite H1.
  apply bits_to_Z_to_bits. exact Hv.
Qed.

Lemma ir_selections_app tr1 tr2 :
  ir_selections (tr1 ++ tr2) = ir_selections tr1 ++ ir_selections tr2.
Proof.
  induction tr1 as [|[c|w a|b] tr1 IH]; cbn; rewrite ?IH; reflexivity.
Qed.

Lemma ir_selections_polls resp n m : ir_selections (polls resp n m) = [].
Proof.
  revert n. induction m as [|m IH]; intros n; [reflexivity|].
  rewrite polls_cons. cbn. apply IH.
Qed.

Lemma dr_shifts_app tr1 tr2 :
  dr_shifts (tr1 ++ tr2) = dr_shifts tr1 ++ dr_shifts tr2.
Proof.
  induction tr1 as [|[c|w a|b] tr1 IH]; cbn; rewrite ?IH; reflexivity.
Qed.

Lemma dr_shifts_polls resp n m : dr_shifts (polls resp n m) = polls resp n m.
Proof.
  revert n. induction m as [|m IH]; intros n; [reflexivity|].
  rewrite polls_cons. cbn. rewrite IH. reflexivity.
Qed.

Lemma In_polls resp n m o :
  In o (polls resp n m) -> exists i, o = OpReadDR 4 (resp i).
Proof.
  unfold polls. rewrite in_map_iff. intros [i [<- _]]. exists i. reflexivity.
Qed.

Section ReadWrite.

Context {arch : ArcJtag}.
Variable resp : nat -> bitarray.

(** [read] on one of the three address spaces: the request, the wait, and
    whatever follows the wait. *)
Lemma read_ends_with n address space opcode tr out :
  In (space, opcode) read_opcodes ->
  ends_with resp n (ITree.bind _wait_txn read_data) tr out ->
  ends_with resp n (read address space) (read_request address opcode ++ tr) out.
Proof.
  intros Hin H. unfold read, read_request.
  cbn in Hin.
  destruct Hin as [Heq|[Heq|[Heq|[]]]]; inversion Heq; subst; cbn [String.eqb Ascii.eqb Bool.eqb];
    apply ends_with_bind_Ret;
    apply ends_with_write_ir, ends_with_write_dr,
          ends_with_write_ir, ends_with_write_dr; exact H.
Qed.

Lemma write_ends_with n address data space opcode tr out :
  In (space, opcode) write_opcodes ->
  ends_with resp n _wait_txn tr out ->
  ends_with resp n (write address data space)
    (write_request address data opcode ++ tr) out.
Proof.
  intros Hin H. unfold write, write_request.
  cbn in Hin.
  destruct Hin as [Heq|[Heq|[Heq|[]]]]; inversion Heq; subst; cbn [String.eqb Ascii.eqb Bool.eqb];
    apply ends_with_bind_Ret;
    apply ends_with_write_ir, ends_with_write_dr,
          ends_with_write_ir, ends_with_write_dr,
          ends_with_write_ir, ends_with_write_dr; exact H.
Qed.

End ReadWrite.

(** ** The transactions *)

Section Transactions.

Context {arch : ArcJtag}.
Variable resp : nat -> bitarray.

(** [read] when the wait succeeds after [m] polls that said RD=0, FL=0. *)
Lemma read_succeeds n m address space opcode :
  In (space, opcode) read_opcodes ->
  pending_until resp n m -> ready (resp (n + m)%nat) ->
  ends_with resp n (read address space)
    (read_request address opcode
       ++ OpWriteIR IR_STATUS :: polls resp n (S m)
       ++ [OpWriteIR IR_DATA; OpReadDR 32 (resp (n + S m)%nat)])
    (Returned (getattr "Data" (from_bitarray DR_DATA (resp (n + S m)%nat)))).
Proof.
  intros Hin Hp Hr. apply read_ends_with; [exact Hin|].
  change (OpWriteIR IR_STATUS :: polls resp n (S m)
            ++ [OpWriteIR IR_DATA; OpReadDR 32 (resp (n + S m)%nat)])
    with ((OpWriteIR IR_STATUS :: polls resp n (S m))
            ++ [OpWriteIR IR_DATA; OpReadDR 32 (resp (n + S m)%nat)]).
  eapply ends_with_bind; [apply wait_txn_ready; assumption|].
  cbn [reads_done]. rewrite reads_done_polls.
  unfold read_data. auto with tap.
Qed.

(** [read] when the wait fails at poll [m]. *)
Lemma read_fails n m address space opcode :
  In (space, opcode) read_opcodes ->
  pending_until resp n m -> status_FL (resp (n + m)%nat) = true ->
  ends_with resp n (read address space)
    (read_request address opcode ++ OpWriteIR IR_STATUS :: polls resp n (S m))
    (Raised (GlasgowAppletError "transaction failed")).
Proof.
  intros Hin Hp Hf. apply read_ends_with; [exact Hin|].
  apply ends_with_bind_raised, wait_txn_failed; assumption.
Qed.

Lemma write_succeeds n m address data space opcode :
  In (space, opcode) write_opcodes ->
  pending_until resp n m -> ready (resp (n + m)%nat) ->
  ends_with resp n (write address data space)
    (write_request address data opcode
       ++ OpWriteIR IR_STATUS :: polls resp n (S m))
    (Returned tt).
Proof.
  intros Hin Hp Hr. apply write_ends_with; [exact Hin|].
  apply wait_txn_ready; assumption.
Qed.

Lemma write_fails n m address data space opcode :
  In (space, opcode) write_opcodes ->
  pending_until resp n m -> status_FL (resp (n + m)%nat) = true ->
  ends_with resp n (write address data space)
    (write_request address data opcode
       ++ OpWriteIR IR_STATUS :: polls resp n (S m))
    (Raised (GlasgowAppletError "transaction failed")).
Proof.
  intros Hin Hp Hf. apply write_ends_with; [exact Hin|].
  apply wait_txn_failed; assumption.
Qed.

End Transactions.

(** A space that is none of the three fails the assertion at once. *)
Lemma run_invalid_space {arch : ArcJtag} (resp : nat -> bitarray)
    (n fuel : nat) (address data : Z) (space : string) :
  ~ In space address_spaces ->
  run (S fuel) resp n (read address space) = ([], Raised AssertionError)
  /\ run (S fuel) resp n (write address data space) = ([], Raised AssertionError).
Proof.
  intros Hn. unfold address_spaces in Hn. cbn [In] in Hn.
  assert (Hm : String.eqb space "memory" = false)
    by (apply String.eqb_neq; intros ->; apply Hn; auto).
  assert (Hc : String.eqb space "core" = false)
    by (apply String.eqb_neq; intros ->; apply Hn; auto).
  assert (Hx : String.eqb space "aux" = false)
    by (apply String.eqb_neq; intros ->; apply Hn; auto).
  unfold read, write. rewrite Hm, Hc, Hx.
  split; apply run_bind_throw.
Qed.

(** ** Runs of [read] and [write], by the fuel *)

Section Requests.

Context {arch : ArcJtag}.
Variable resp : nat -> bitarray.

Lemma run_read_request n fuel address space opcode :
  In (space, opcode) read_opcodes ->
  run (4 + fuel) resp n (read address space)
  = (read_request address opcode
       ++ fst (run fuel resp n (ITree.bind _wait_txn read_data)),
     snd (run fuel resp n (ITree.bind _wait_txn read_data))).
Proof.
  intros Hin. cbn in Hin. unfold read.
  destruct Hin as [Heq|[Heq|[Heq|[]]]]; inversion Heq; subst;
    cbn [String.eqb Ascii.eqb Bool.eqb Nat.add];
    rewrite run_bind_Ret, run_write_ir, run_write_dr, run_write_ir, run_write_dr;
    reflexivity.
Qed.

Lemma run_write_request n fuel address data space opcode :
  In (space, opcode) write_opcodes ->
  run (6 + fuel) resp n (write address data space)
  = (write_request address data opcode ++ fst (run fuel resp n _wait_txn),
     snd (run fuel resp n _wait_txn)).
Proof.
  intros Hin. cbn in Hin. unfold write.
  destruct Hin as [Heq|[Heq|[Heq|[]]]]; inversion Heq; subst;
    cbn [String.eqb Ascii.eqb Bool.eqb Nat.add];
    rewrite run_bind_Ret, run_write_ir, run_write_dr, run_write_ir, run_write_dr,
            run_write_ir, run_write_dr;
    reflexivity.
Qed.

(** A space is one of the three, or the assertion fails. *)
Lemma space_cases (space : string) :
  (exists ropcode wopcode,
      In (space, ropcode) read_opcodes /\ In (space, wopcode) write_opcodes)
  \/ ~ In space address_spaces.
Proof.
  destruct (in_dec string_dec space address_spaces) as [Hin|Hn]; [left|right; exact Hn].
  cbn in Hin. destruct Hin as [<-|[<-|[<-|[]]]].
  - exists DR_TXN_COMMAND_READ_MEMORY, DR_TXN_COMMAND_WRITE_MEMORY. cbn. auto.
  - exists DR_TXN_COMMAND_READ_CORE, DR_TXN_COMMAND_WRITE_CORE. cbn. auto.
  - exists DR_TXN_COMMAND_READ_AUX, DR_TXN_COMMAND_WRITE_AUX. cbn. auto.
Qed.

(** Up to any bound, the polls all say RD=0 and FL=0, or a first one says
    otherwise: it has FL set, or it is ready. *)
Lemma polls_cases n bound :
  pending_until resp n bound \/
  exists j, pending_until resp n j /\
            (status_FL (resp (n + j)%nat) = true \/ ready (resp (n + j)%nat)).
Proof.
  destruct (first_not_pending resp n bound) as [H|[j [_ [Hp Hj]]]];
    [left; exact H|right].
  exists j. split; [exact Hp|].
  destruct (status_FL (resp (n + j)%nat)) eqn:Hfl; [left; reflexivity|].
  right. destruct Hj as [Hrd|Hf]; [split; assumption | discriminate].
Qed.

(** While the polls say RD=0 and FL=0, [_wait_txn] is running. *)
Lemma wait_txn_running n fuel :
  pending_until resp n fuel ->
  snd (run fuel resp n _wait_txn) = Running.
Proof.
  intros Hp.
  destruct (run fuel resp n _wait_txn) as [tr out] eqn:E. cbn.
  destruct out as [r|e|]; [| |reflexivity]; exfalso.
  - assert (Hm : run (S (2 * fuel + 0)) resp n _wait_txn = (tr, Returned r))
      by (apply (run_mono _ _ _ E); [discriminate | lia]).
    rewrite run_wait_txn_pending in Hm by exact Hp. discriminate.
  - assert (Hm : run (S (2 * fuel + 0)) resp n _wait_txn = (tr, Raised e))
      by (apply (run_mono _ _ _ E); [discriminate | lia]).
    rewrite run_wait_txn_pending in Hm by exact Hp. discriminate.
Qed.

(** More fuel only adds operations at the end of a run. *)
Lemma run_prefix {R} fuel : forall n (t : itree arcE R) fuel',
  (fuel <= fuel')%nat ->
  exists tr', fst (run fuel' resp n t) = fst (run fuel resp n t) ++ tr'.
Proof.
  induction fuel as [|fuel IH]; intros n t fuel' Hle.
  - exists (fst (run fuel' resp n t)). reflexivity.
  - destruct fuel' as [|fuel']; [lia|]. rewrite !run_S.
    destruct (observe t) as [r|t'|X e k].
    + exists []. reflexivity.
    + apply IH. lia.
    + destruct e as [e'|ex]; [|destruct ex; exists []; reflexivity].
      destruct (step_tap e' k resp n) as [[o n'] t'].
      destruct (IH n' t' fuel' ltac:(lia)) as [tr' Htr'].
      exists tr'. unfold issue. cbn. rewrite Htr'. reflexivity.
Qed.

End Requests.

(** ** Every way [read] and [write] can end *)

Section Outcomes.

Context {arch : ArcJtag}.
Variable resp : nat -> bitarray.

Lemma write_outcomes n fuel address data space tr out :
  run fuel resp n (write address data space) = (tr, out) ->
  out <> Running ->
  (~ In space address_spaces /\ tr = [] /\ out = Raised AssertionError)
  \/ (exists opcode m,
        In (space, opcode) write_opcodes /\ pending_until resp n m /\
        ready (resp (n + m)%nat) /\
        tr = write_request address data opcode
               ++ OpWriteIR IR_STATUS :: polls resp n (S m) /\
        out = Returned tt)
  \/ (exists opcode m,
        In (space, opcode) write_opcodes /\ pending_until resp n m /\
        status_FL (resp (n + m)%nat) = true /\
        tr = write_request address data opcode
               ++ OpWriteIR IR_STATUS :: polls resp n (S m) /\
        out = Raised (GlasgowAppletError "transaction failed")).
Proof.
  intros E Hout.
  assert (He : ends_with resp n (write address data space) tr out)
    by (eapply ends_with_intro; eassumption).
  destruct (space_cases space) as [[ropcode [wopcode [_ Hw]]]|Hn].
  - destruct (polls_cases resp n fuel) as [Hp|[j [Hp [Hf|Hr]]]].
    + exfalso. apply Hout.
      assert (Hm : run (6 + fuel) resp n (write address data space) = (tr, out))
        by (eapply run_mono; [exact E | exact Hout | lia]).
      erewrite run_write_request in Hm by exact Hw.
      rewrite (wait_txn_running Hp) in Hm. inversion Hm. reflexivity.
    + right. right. exists wopcode, j.
      assert (He' : ends_with resp n (write address data space)
                      (write_request address data wopcode
                         ++ OpWriteIR IR_STATUS :: polls resp n (S j))
                      (Raised (GlasgowAppletError "transaction failed")))
        by (apply write_fails; assumption).
      destruct (ends_with_unique He He') as [-> ->]. auto.
    + right. left. exists wopcode, j.
      assert (He' : ends_with resp n (write address data space)
                      (write_request address data wopcode
                         ++ OpWriteIR IR_STATUS :: polls resp n (S j))
                      (Returned tt))
        by (apply write_succeeds; assumption).
      destruct (ends_with_unique He He') as [-> ->]. auto.
  - left. destruct fuel as [|fuel]; [inversion E; subst; congruence|].
    destruct (run_invalid_space resp n fuel address data Hn) as [_ Hw].
    rewrite Hw in E. inversion E. auto.
Qed.

Lemma read_outcomes n fuel address space tr out :
  run fuel resp n (read address space) = (tr, out) ->
  out <> Running ->
  (~ In space address_spaces /\ tr = [] /\ out = Raised AssertionError)
  \/ (exists opcode m,
        In (space, opcode) read_opcodes /\ pending_until resp n m /\
        ready (resp (n + m)%nat) /\
        tr = read_request address opcode
               ++ OpWriteIR IR_STATUS :: polls resp n (S m)
               ++ [OpWriteIR IR_DATA; OpReadDR 32 (resp (n + S m)%nat)] /\
        out = Returned
                (getattr "Data" (from_bitarray DR_DATA (resp (n + S m)%nat))))
  \/ (exists opcode m,
        In (space, opcode) read_opcodes /\ pending_until resp n m /\
        status_FL (resp (n + m)%nat) = true /\
        tr = read_request address opcode
               ++ OpWriteIR IR_STATUS :: polls resp n (S m) /\
        out = Raised (GlasgowAppletError "transaction failed")).
Proof.
  intros E Hout.
  assert (He : ends_with resp n (read address space) tr out)
    by (eapply ends_with_intro; eassumption).
  destruct (space_cases space) as [[ropcode [wopcode [Hr _]]]|Hn].
  - destruct (polls_cases resp n fuel) as [Hp|[j [Hp [Hf|Hrd]]]].
    + exfalso. apply Hout.
      assert (Hm : run (4 + fuel) resp n (read address space) = (tr, out))
        by (eapply run_mono; [exact E | exact Hout | lia]).
      erewrite run_read_request in Hm by exact Hr.
      pose proof (wait_txn_running Hp) as Hrun.
      destruct (run fuel resp n _wait_txn) as [tr0 out0] eqn:E0.
      cbn in Hrun. subst out0.
      apply (run_bind_stops read_data) in E0.
      rewrite E0 in Hm. inversion Hm. reflexivity.
    + right. right. exists ropcode, j.
      assert (He' : ends_with resp n (read address space)
                      (read_request address ropcode
                         ++ OpWriteIR IR_STATUS :: polls resp n (S j))
                      (Raised (GlasgowAppletError "transaction failed")))
        by (apply read_fails; assumption).
      destruct (ends_with_unique He He') as [-> ->]. auto.
    + right. left. exists ropcode, j.
      assert (He' : ends_with resp n (read address space)
                      (read_request address ropcode
                         ++ OpWriteIR IR_STATUS :: polls resp n (S j)
                         ++ [OpWriteIR IR_DATA; OpReadDR 32 (resp (n + S j)%nat)])
                      (Returned (getattr "Data"
                                   (from_bitarray DR_DATA (resp (n + S j)%nat)))))
        by (apply read_succeeds; assumption).
      destruct (ends_with_unique He He') as [-> ->]. auto 6.
  - left. destruct fuel as [|fuel]; [inversion E; subst; congruence|].
    destruct (run_invalid_space resp n fuel address 0 Hn) as [Hr _].
    rewrite Hr in E. inversion E. auto.
Qed.

End Outcomes.

(** ** The engine on an example *)

Example wait_three_polls :
  run 20 (fun i => if (i <? 3)%nat then status_word false false false false
                   else status_word false false true false) 0 _wait_txn
  = (OpWriteIR IR_STATUS ::
     [OpReadDR 4 [false; false; false; false]; OpReadDR 4 [false; false; false; false];
      OpReadDR 4 [false; false; false; false]; OpReadDR 4 [false; false; true; false]],
     Returned tt).
Proof. reflexivity. Qed.

(** ** The claims *)

(** C1. For a 32-bit address and the space "memory", when [m] status polls
    say RD=0, FL=0 and the next one says RD=1, FL=0, [read] selects the
    instruction registers ADDRESS, TXN_COMMAND, STATUS, DATA in that order and
    no other, shifts the encoded address, then the READ_MEMORY opcode, then
    the [m+1] status polls, then reads 32 bits from DR, and returns the Data
    field decoded from that last read: the value [v] itself when the TAP
    supplied the 32 bits of [v]. *)
Theorem read_memory_sequence {arch : ArcJtag} (resp : nat -> bitarray)
    (n m : nat) (address : Z) :
  0 <= address < 2 ^ 32 ->
  pending_until resp n m -> ready (resp (n + m)%nat) ->
  let answer := resp (n + S m)%nat in
  let tr :=
    [OpWriteIR IR_ADDRESS; OpWriteDR (encoded_address address);
     OpWriteIR IR_TXN_COMMAND; OpWriteDR DR_TXN_COMMAND_READ_MEMORY;
     OpWriteIR IR_STATUS]
    ++ polls resp n (S m)
    ++ [OpWriteIR IR_DATA; OpReadDR 32 answer] in
  ends_with resp n (read address "memory") tr
    (Returned (getattr "Data" (from_bitarray DR_DATA answer)))
  /\ ir_selections tr = [IR_ADDRESS; IR_TXN_COMMAND; IR_STATUS; IR_DATA]
  /\ getattr "Address" (from_bitarray DR_ADDRESS (encoded_address address))
     = address
  /\ (forall v, 0 <= v < 2 ^ 32 -> answer = Z_to_bits 32 v ->
      getattr "Data" (from_bitarray DR_DATA answer) = v).
Proof.
  intros Ha Hp Hr answer tr. split; [|split; [|split]].
  - exact (@read_succeeds arch resp n m address "memory"
             DR_TXN_COMMAND_READ_MEMORY (or_introl eq_refl) Hp Hr).
  - unfold tr. rewrite !ir_selections_app, ir_selections_polls. reflexivity.
  - rewrite encoded_address_bits. apply Address_of_bits. exact Ha.
  - intros v Hv ->. apply Data_of_bits. exact Hv.
Qed.

(** C2. For every address, data value and space among "memory", "core" and
    "aux", when the wait succeeds [write] shifts through DR, in this order,
    the encoded address, the encoded data, the WRITE opcode of the space and
    then the status polls, and returns no value. *)
Theorem write_sequence {arch : ArcJtag} (resp : nat -> bitarray) (n m : nat)
    (address data : Z) (space : string) (opcode : bitarray) :
  0 <= address < 2 ^ 32 -> 0 <= data < 2 ^ 32 ->
  In (space, opcode) write_opcodes ->
  pending_until resp n m -> ready (resp (n + m)%nat) ->
  let tr :=
    [OpWriteIR IR_ADDRESS; OpWriteDR (encoded_address address);
     OpWriteIR IR_DATA; OpWriteDR (encoded_data data);
     OpWriteIR IR_TXN_COMMAND; OpWriteDR opcode;
     OpWriteIR IR_STATUS]
    ++ polls resp n (S m) in
  ends_with resp n (write address data space) tr (Returned tt)
  /\ dr_shifts tr
     = [OpWriteDR (encoded_address address); OpWriteDR (encoded_data data);
        OpWriteDR opcode] ++ polls resp n (S m)
  /\ getattr "Address" (from_bitarray DR_ADDRESS (encoded_address address))
     = address
  /\ getattr "Data" (from_bitarray DR_DATA (encoded_data data)) = data.
Proof.
  intros Ha Hd Hin Hp Hr tr. split; [|split; [|split]].
  - exact (@write_succeeds arch resp n m address data space opcode Hin Hp Hr).
  - unfold tr. rewrite dr_shifts_app, dr_shifts_polls. reflexivity.
  - rewrite encoded_address_bits. apply Address_of_bits. exact Ha.
  - rewrite encoded_data_bits. apply Data_of_bits. exact Hd.
Qed.

(** C3. For [read] and for [write] alike, when a status poll has FL set, the
    first poll included and whatever RD says, the operation raises the
    transaction failure at that poll, which is the last operation it issues
    on the port: a failed read has selected ADDRESS, TXN_COMMAND and STATUS
    only, never DATA, and has read no 32 bits from DR. *)
Theorem failed_poll_stops_transaction {arch : ArcJtag} (resp : nat -> bitarray)
    (n m : nat) (address data : Z) (space : string) (ropcode wopcode : bitarray) :
  In (space, ropcode) read_opcodes ->
  In (space, wopcode) write_opcodes ->
  pending_until resp n m ->
  status_FL (resp (n + m)%nat) = true ->
  let failing_poll := OpReadDR 4 (resp (n + m)%nat) in
  let rtr :=
    read_request address ropcode
    ++ OpWriteIR IR_STATUS :: polls resp n m ++ [failing_poll] in
  let wtr :=
    write_request address data wopcode
    ++ OpWriteIR IR_STATUS :: polls resp n m ++ [failing_poll] in
  ends_with resp n (read address space) rtr
    (Raised (GlasgowAppletError "transaction failed"))
  /\ ends_with resp n (write address data space) wtr
       (Raised (GlasgowAppletError "transaction failed"))
  /\ GlasgowAppletError "transaction failed" <> AssertionError
  /\ ir_selections rtr = [IR_ADDRESS; IR_TXN_COMMAND; IR_STATUS]
  /\ (forall answer, ~ In (OpReadDR 32 answer) rtr).
Proof.
  intros Hr Hw Hp Hf failing_poll rtr wtr.
  unfold rtr, wtr, failing_poll. rewrite <- !polls_S.
  split; [|split; [|split; [|split]]].
  - exact (@read_fails arch resp n m address space ropcode Hr Hp Hf).
  - exact (@write_fails arch resp n m address data space wopcode Hw Hp Hf).
  - discriminate.
  - rewrite ir_selections_app. cbn [ir_selections read_request app].
    rewrite ir_selections_polls. reflexivity.
  - intros answer Hin. apply in_app_or in Hin.
    destruct Hin as [Hin|[Hin|Hin]].
    + cbn in Hin. repeat (destruct Hin as [Hin|Hin]; [discriminate|]).
      exact Hin.
    + discriminate.
    + apply In_polls in Hin. destruct Hin as [i Hi]. discriminate.
Qed.

(** C4. Whatever 32 bits the TAP returns, [identify] selects IR=IDCODE, reads
    32 bits from DR, decodes them as an IDCODE and returns it with what the
    catalog holds for its (mfg_id, part_id); when the catalog holds nothing
    for that pair it returns the decoded IDCODE with no device, and in no
    case does it raise. *)
Theorem identify_returns {arch : ArcJtag} (devices : Catalog)
    (resp : nat -> bitarray) (n : nat) :
  let idcode := from_bitarray DR_IDCODE (resp n) in
  let mfg_id := getattr "mfg_id" idcode in
  let part_id := getattr "part_id" idcode in
  ends_with resp n (identify devices)
    [OpWriteIR IR_IDCODE; OpReadDR 32 (resp n)]
    (Returned (idcode, lookup devices mfg_id part_id))
  /\ ((forall d, ~ In ((mfg_id, part_id), d) devices) ->
      ends_with resp n (identify devices)
        [OpWriteIR IR_IDCODE; OpReadDR 32 (resp n)]
        (Returned (idcode, None)))
  /\ (forall fuel e, snd (run fuel resp n (identify devices)) <> Raised e).
Proof.
  intros idcode mfg_id part_id.
  assert (H : ends_with resp n (identify devices)
                [OpWriteIR IR_IDCODE; OpReadDR 32 (resp n)]
                (Returned (idcode, lookup devices mfg_id part_id))).
  { unfold identify. auto with tap. }
  split; [exact H|split].
  - intros Habs. rewrite <- (lookup_absent devices _ _ Habs). exact H.
  - intros fuel e Heq.
    destruct (run fuel resp n (identify devices)) as [tr out] eqn:E.
    cbn in Heq. subst out.
    assert (H' : ends_with resp n (identify devices) tr (Raised e))
      by (apply (ends_with_intro fuel); [exact E | discriminate]).
    destruct (ends_with_unique H H') as [_ Hout]. discriminate.
Qed.

(** C5. For a space that is none of "memory", "core" and "aux", [read] and
    [write] fail on their assertion before anything is issued on the port:
    no IR selection, no DR shift.  The failure is the assertion's, raised and
    not returned as a result. *)
Theorem invalid_space_asserts {arch : ArcJtag} (resp : nat -> bitarray)
    (n fuel : nat) (address data : Z) (space : string) :
  ~ In space address_spaces ->
  run (S fuel) resp n (read address space) = ([], Raised AssertionError)
  /\ run (S fuel) resp n (write address data space) = ([], Raised AssertionError)
  /\ (forall msg, AssertionError <> GlasgowAppletError msg).
Proof.
  intros Hn.
  destruct (run_invalid_space resp n fuel address data Hn) as [Hr Hw].
  split; [exact Hr|split; [exact Hw|discriminate]].
Qed.

(** C6. Whatever the TAP answers, [_wait_txn] writes IR=STATUS once and then
    only shifts four bits out of DR; after [m] polls that said RD=0, FL=0 it
    has neither returned nor failed and has issued the next poll; and for any
    number [m] of such polls, three or three thousand, a following poll with
    RD=1, FL=0 makes it return. *)
Theorem wait_txn_keeps_polling {arch : ArcJtag} (resp : nat -> bitarray)
    (n : nat) :
  (forall fuel, exists m,
      fst (run (S fuel) resp n _wait_txn)
      = OpWriteIR IR_STATUS :: polls resp n m)
  /\ (forall fuel,
      ir_selections (fst (run (S fuel) resp n _wait_txn)) = [IR_STATUS])
  /\ (forall m, pending_until resp n m ->
      run (2 * m + 2) resp n _wait_txn
      = (OpWriteIR IR_STATUS :: polls resp n (S m), Running))
  /\ (forall m, pending_until resp n m -> ready (resp (n + m)%nat) ->
      ends_with resp n _wait_txn
        (OpWriteIR IR_STATUS :: polls resp n (S m)) (Returned tt)).
Proof.
  assert (Hshape : forall fuel, exists m,
             fst (run (S fuel) resp n _wait_txn)
             = OpWriteIR IR_STATUS :: polls resp n m).
  { intros fuel.
    destruct (run (S fuel) resp n _wait_txn) as [tr out] eqn:E.
    apply run_wait_txn_inv in E. cbn [fst].
    destruct out as [r|e|].
    - destruct E as [m [-> _]]. exists (S m). reflexivity.
    - destruct E as [m [-> _]]. exists (S m). reflexivity.
    - destruct E as [m [-> _]]. exists m. reflexivity. }
  split; [exact Hshape|split; [|split]].
  - intros fuel. destruct (Hshape fuel) as [m ->].
    cbn [ir_selections]. rewrite ir_selections_polls. reflexivity.
  - intros m Hp.
    replace (2 * m + 2)%nat with (S (2 * m + 1)) by lia.
    rewrite run_wait_txn_pending by exact Hp.
    rewrite run_poll_loop_1, polls_S. reflexivity.
  - intros m Hp Hr. apply wait_txn_ready; assumption.
Qed.

(** C7. [_wait_txn] ends exactly when some status poll has RD or FL set:
    if there is such a poll it ends, by returning or by the transaction
    failure; if it ends there is such a poll; and if every poll says RD=0 and
    FL=0 it never ends, and goes on polling without bound. *)
Theorem wait_txn_ends_iff {arch : ArcJtag} (resp : nat -> bitarray) (n : nat) :
  ((exists m, status_RD (resp (n + m)%nat) = true \/
              status_FL (resp (n + m)%nat) = true)
   <-> (exists tr out, ends_with resp n _wait_txn tr out))
  /\ (forall tr out, ends_with resp n _wait_txn tr out ->
      out = Returned tt \/ out = Raised (GlasgowAppletError "transaction failed"))
  /\ ((forall i, pending (resp (n + i)%nat)) ->
      (forall fuel, snd (run fuel resp n _wait_txn) = Running) /\
      (forall m, fst (run (S (2 * m)) resp n _wait_txn)
                 = OpWriteIR IR_STATUS :: polls resp n m)).
Proof.
  split; [split|split].
  - intros [m0 Hm0].
    destruct (polls_cases resp n (S m0)) as [Hp|[j [Hp [Hf|Hr]]]].
    + exfalso. destruct (Hp m0 ltac:(lia)) as [Hrd Hfl].
      destruct Hm0 as [H|H]; congruence.
    + eexists; eexists. apply wait_txn_failed; eassumption.
    + eexists; eexists. apply wait_txn_ready; eassumption.
  - intros [tr [out He]].
    destruct (ends_with_run He) as [fuel [E Hout]].
    destruct (first_not_pending resp n fuel) as [Hp|[j [_ [_ Hj]]]];
      [|exists j; exact Hj].
    exfalso. apply Hout.
    pose proof (wait_txn_running Hp) as Hrun.
    rewrite E in Hrun. exact Hrun.
  - intros tr out He.
    destruct (ends_with_run He) as [fuel [E Hout]].
    destruct fuel as [|fuel]; [inversion E; subst; congruence|].
    apply run_wait_txn_inv in E.
    destruct out as [[]|e|]; [left; reflexivity| |congruence].
    right. destruct E as [m [_ [_ [_ ->]]]]. reflexivity.
  - intros Hall. split.
    + intros fuel. apply wait_txn_running. intros i _. apply Hall.
    + intros m. replace (2 * m)%nat with (2 * m + 0)%nat by lia.
      rewrite run_wait_txn_pending by (intros i _; apply Hall).
      cbn [run fst]. rewrite app_nil_r. reflexivity.
Qed.

(** C8. For the IDCODE, ADDRESS and DATA registers, encoding a valid field
    assignment gives a bit sequence of the register's width, here 32, and
    decoding that sequence gives the assignment back; for ADDRESS and DATA
    the assignment is the one 32-bit value.  Decoding is defined on every
    bit sequence and yields a valid assignment, and encoding what it yields
    from a sequence of the register's width restores that sequence: it
    extracts bit fields and does nothing else. *)
Theorem codec_round_trip {arch : ArcJtag} :
  (forall idcode, valid DR_IDCODE idcode ->
     List.length (to_bitarray DR_IDCODE idcode) = 32%nat /\
     from_bitarray DR_IDCODE (to_bitarray DR_IDCODE idcode) = idcode)
  /\ (forall address, 0 <= address < 2 ^ 32 ->
     let dr_address := make DR_ADDRESS [("Address", address)] in
     valid DR_ADDRESS dr_address /\
     List.length (to_bitarray DR_ADDRESS dr_address) = 32%nat /\
     from_bitarray DR_ADDRESS (to_bitarray DR_ADDRESS dr_address) = dr_address /\
     getattr "Address"
       (from_bitarray DR_ADDRESS (to_bitarray DR_ADDRESS dr_address)) = address)
  /\ (forall data, 0 <= data < 2 ^ 32 ->
     let dr_data := make DR_DATA [("Data", data)] in
     valid DR_DATA dr_data /\
     List.length (to_bitarray DR_DATA dr_data) = 32%nat /\
     from_bitarray DR_DATA (to_bitarray DR_DATA dr_data) = dr_data /\
     getattr "Data" (from_bitarray DR_DATA (to_bitarray DR_DATA dr_data)) = data)
  /\ (forall B bits, valid_fields (bf_fields B) (from_bitarray B bits))
  /\ (forall B bits, NoDup (map fst (bf_fields B)) ->
     List.length bits = width B ->
     to_bitarray B (from_bitarray B bits) = bits).
Proof.
  split; [|split; [|split; [|split]]].
  - intros idcode [Hnd Hv]. split.
    + unfold to_bitarray. rewrite length_encode. exact DR_IDCODE_width.
    + apply decode_encode; assumption.
  - intros address Ha dr_address.
    assert (Hvalid : valid DR_ADDRESS dr_address).
    { split; cbn.
      - repeat constructor. intros [].
      - repeat split; lia. }
    split; [exact Hvalid|]. split; [|split].
    + unfold to_bitarray. rewrite length_encode. reflexivity.
    + apply decode_encode; apply Hvalid.
    + unfold from_bitarray, to_bitarray.
      rewrite decode_encode by apply Hvalid. reflexivity.
  - intros data Hd dr_data.
    assert (Hvalid : valid DR_DATA dr_data).
    { split; cbn.
      - repeat constructor. intros [].
      - repeat split; lia. }
    split; [exact Hvalid|]. split; [|split].
    + unfold to_bitarray. rewrite length_encode. reflexivity.
    + apply decode_encode; apply Hvalid.
    + unfold from_bitarray, to_bitarray.
      rewrite decode_encode by apply Hvalid. reflexivity.
  - intros B bits. apply decode_valid.
  - intros B bits Hnd Hlen. apply encode_decode; assumption.
Qed.

(** C9. A failed write is not undone: whenever [write] raises the
    transaction failure, the port has already received, in order, the
    encoded address, the encoded data and the WRITE opcode of the space, the
    failing poll is the last operation of the call, and no amount of further
    running adds an operation after it. *)
Theorem failed_write_not_atomic {arch : ArcJtag} (resp : nat -> bitarray)
    (n fuel : nat) (address data : Z) (space : string) (tr : list op)
    (msg : string) :
  run fuel resp n (write address data space)
  = (tr, Raised (GlasgowAppletError msg)) ->
  exists opcode m,
    In (space, opcode) write_opcodes
    /\ tr = [OpWriteIR IR_ADDRESS; OpWriteDR (encoded_address address);
             OpWriteIR IR_DATA; OpWriteDR (encoded_data data);
             OpWriteIR IR_TXN_COMMAND; OpWriteDR opcode;
             OpWriteIR IR_STATUS]
            ++ polls resp n m ++ [OpReadDR 4 (resp (n + m)%nat)]
    /\ status_FL (resp (n + m)%nat) = true
    /\ dr_shifts tr
       = [OpWriteDR (encoded_address address); OpWriteDR (encoded_data data);
          OpWriteDR opcode] ++ polls resp n (S m)
    /\ (forall fuel', (fuel <= fuel')%nat ->
        run fuel' resp n (write address data space)
        = (tr, Raised (GlasgowAppletError msg))).
Proof.
  intros E.
  assert (Hout : Raised (GlasgowAppletError msg) <> @Running unit)
    by discriminate.
  destruct (write_outcomes resp n fuel address data space E Hout)
    as [[_ [_ H]]|[[opcode [m [_ [_ [_ [_ H]]]]]]|[opcode [m [Hin [Hp [Hf [-> H]]]]]]]];
    try discriminate.
  exists opcode, m. rewrite <- polls_S.
  split; [exact Hin|]. split; [reflexivity|]. split; [exact Hf|]. split.
  - rewrite dr_shifts_app. cbn [write_request dr_shifts app].
    rewrite dr_shifts_polls. reflexivity.
  - intros fuel' Hle. eapply run_mono; [exact E | exact Hout | exact Hle].
Qed.

(** C10. The status the loop starts from has RD clear, so every call that
    gets to the polling phase shifts four bits out of DR at least once:
    [_wait_txn] itself, [read] and [write] on any of the three spaces.  And a
    call only returns after a poll that the TAP answered with RD set: the
    default status never stands for success. *)
Theorem polls_at_least_once {arch : ArcJtag} (resp : nat -> bitarray)
    (n : nat) :
  truthy (getattr "RD" (make DR_STATUS [])) = false
  /\ (forall fuel, (2 <= fuel)%nat ->
      exists tr', fst (run fuel resp n _wait_txn)
                  = OpWriteIR IR_STATUS :: OpReadDR 4 (resp n) :: tr')
  /\ (forall fuel address space opcode,
      In (space, opcode) read_opcodes -> (6 <= fuel)%nat ->
      exists tr', fst (run fuel resp n (read address space))
                  = read_request address opcode
                    ++ OpWriteIR IR_STATUS :: OpReadDR 4 (resp n) :: tr')
  /\ (forall fuel address data space opcode,
      In (space, opcode) write_opcodes -> (8 <= fuel)%nat ->
      exists tr', fst (run fuel resp n (write address data space))
                  = write_request address data opcode
                    ++ OpWriteIR IR_STATUS :: OpReadDR 4 (resp n) :: tr')
  /\ (forall fuel tr,
      run fuel resp n _wait_txn = (tr, Returned tt) ->
      exists m, tr = OpWriteIR IR_STATUS :: polls resp n m
                     ++ [OpReadDR 4 (resp (n + m)%nat)]
                /\ status_RD (resp (n + m)%nat) = true)
  /\ (forall fuel address space tr v,
      run fuel resp n (read address space) = (tr, Returned v) ->
      exists m, In (OpReadDR 4 (resp (n + m)%nat)) tr
                /\ status_RD (resp (n + m)%nat) = true)
  /\ (forall fuel address data space tr,
      run fuel resp n (write address data space) = (tr, Returned tt) ->
      exists m, In (OpReadDR 4 (resp (n + m)%nat)) tr
                /\ status_RD (resp (n + m)%nat) = true).
Proof.
  assert (Hfirst : run 2 resp n _wait_txn
                   = ([OpWriteIR IR_STATUS; OpReadDR 4 (resp n)], Running))
    by (rewrite run_wait_txn, run_poll_loop_1; reflexivity).
  split; [|split; [|split; [|split; [|split; [|split]]]]].
  - rewrite getattr_make_nil. reflexivity.
  - intros fuel Hle.
    destruct (run_prefix resp n _wait_txn Hle) as [tr' Htr'].
    rewrite Hfirst in Htr'. exists tr'. exact Htr'.
  - intros fuel address space opcode Hin Hle.
    destruct (run_prefix resp n (read address space) Hle) as [tr' Htr'].
    change 6%nat with (4 + 2)%nat in Htr'.
    erewrite run_read_request in Htr' by exact Hin.
    erewrite (proj2 (run_bind_stops _ _ _ _ _ _)) in Htr' by exact Hfirst.
    exists tr'. rewrite Htr'. cbn [fst]. rewrite <- !app_assoc. reflexivity.
  - intros fuel address data space opcode Hin Hle.
    destruct (run_prefix resp n (write address data space) Hle) as [tr' Htr'].
    change 8%nat with (6 + 2)%nat in Htr'.
    erewrite run_write_request in Htr' by exact Hin.
    rewrite Hfirst in Htr'.
    exists tr'. rewrite Htr'. cbn [fst]. rewrite <- !app_assoc. reflexivity.
  - intros fuel tr E.
    destruct fuel as [|fuel]; [discriminate|].
    apply run_wait_txn_inv in E. destruct E as [m [-> [_ [Hrd _]]]].
    exists m. rewrite <- polls_S. split; [reflexivity | exact Hrd].
  - intros fuel address space tr v E.
    assert (Hout : Returned v <> Running) by discriminate.
    destruct (read_outcomes resp n fuel address space E Hout)
      as [[_ [_ H]]|[[opcode [m [_ [_ [[Hrd _] [-> _]]]]]]|[opcode [m [_ [_ [_ [_ H]]]]]]]];
      try discriminate.
    exists m. split; [|exact Hrd].
    rewrite polls_S. apply in_or_app. right. right.
    apply in_or_app. left. apply in_or_app. right. left. reflexivity.
  - intros fuel address data space tr E.
    assert (Hout : Returned tt <> Running) by discriminate.
    destruct (write_outcomes resp n fuel address data space E Hout)
      as [[_ [_ H]]|[[opcode [m [_ [_ [[Hrd _] [-> _]]]]]]|[opcode [m [_ [_ [_ [_ H]]]]]]]];
      try discriminate.
    exists m. split; [|exact Hrd].
    rewrite polls_S. apply in_or_app. right. right.
    apply in_or_app. right. left. reflexivity.
Qed.

(** ** The claims on concrete runs *)

(** The first polls of a sample port say RD=0, FL=0: one case for each. *)
Ltac pending_prefix :=
  let i := fresh "i" in
  let Hi := fresh "Hi" in
  intros i Hi;
  repeat (destruct i as [|i]; [split; reflexivity|]);
  lia.

Lemma read_memory_sequence_witness :
  0 <= 0x1000 < 2 ^ 32
  /\ pending_until (ready_after 3 0xDEADBEEF) 0 3
  /\ ready (ready_after 3 0xDEADBEEF 3)
  /\ ends_with (ready_after 3 0xDEADBEEF) 0 (read 0x1000 "memory")
       [OpWriteIR IR_ADDRESS; OpWriteDR (Z_to_bits 32 0x1000);
        OpWriteIR IR_TXN_COMMAND; OpWriteDR DR_TXN_COMMAND_READ_MEMORY;
        OpWriteIR IR_STATUS;
        OpReadDR 4 pending_bits; OpReadDR 4 pending_bits; OpReadDR 4 pending_bits;
        OpReadDR 4 ready_bits;
        OpWriteIR IR_DATA; OpReadDR 32 (Z_to_bits 32 0xDEADBEEF)]
       (Returned 0xDEADBEEF).
Proof.
  assert (Ha : 0 <= 0x1000 < 2 ^ 32) by lia.
  assert (Hp : pending_until (ready_after 3 0xDEADBEEF) 0 3)
    by pending_prefix.
  assert (Hr : ready (ready_after 3 0xDEADBEEF 3)) by (split; reflexivity).
  split; [exact Ha|]. split; [exact Hp|]. split; [exact Hr|].
  exact (proj1 (@read_memory_sequence arc_jtag (ready_after 3 0xDEADBEEF)
                  0 3 0x1000 Ha Hp Hr)).
Defined.

Lemma write_sequence_witness :
  0 <= 0x40 < 2 ^ 32 /\ 0 <= 0xCAFE < 2 ^ 32
  /\ In ("core", DR_TXN_COMMAND_WRITE_CORE) write_opcodes
  /\ pending_until (ready_after 1 0) 0 1
  /\ ready (ready_after 1 0 1)
  /\ ends_with (ready_after 1 0) 0 (write 0x40 0xCAFE "core")
       [OpWriteIR IR_ADDRESS; OpWriteDR (Z_to_bits 32 0x40);
        OpWriteIR IR_DATA; OpWriteDR (Z_to_bits 32 0xCAFE);
        OpWriteIR IR_TXN_COMMAND; OpWriteDR DR_TXN_COMMAND_WRITE_CORE;
        OpWriteIR IR_STATUS; OpReadDR 4 pending_bits; OpReadDR 4 ready_bits]
       (Returned tt).
Proof.
  assert (Ha : 0 <= 0x40 < 2 ^ 32) by lia.
  assert (Hd : 0 <= 0xCAFE < 2 ^ 32) by lia.
  assert (Hin : In ("core", DR_TXN_COMMAND_WRITE_CORE) write_opcodes)
    by (right; left; reflexivity).
  assert (Hp : pending_until (ready_after 1 0) 0 1)
    by pending_prefix.
  assert (Hr : ready (ready_after 1 0 1)) by (split; reflexivity).
  split; [exact Ha|]. split; [exact Hd|]. split; [exact Hin|].
  split; [exact Hp|]. split; [exact Hr|].
  exact (proj1 (@write_sequence arc_jtag (ready_after 1 0) 0 1 0x40 0xCAFE
                  "core" DR_TXN_COMMAND_WRITE_CORE Ha Hd Hin Hp Hr)).
Defined.

Lemma failed_poll_stops_transaction_witness :
  In ("aux", DR_TXN_COMMAND_READ_AUX) read_opcodes
  /\ In ("aux", DR_TXN_COMMAND_WRITE_AUX) write_opcodes
  /\ pending_until (failed_after 0) 0 0
  /\ status_FL (failed_after 0 0) = true
  /\ ends_with (failed_after 0) 0 (read 0x40 "aux")
       [OpWriteIR IR_ADDRESS; OpWriteDR (Z_to_bits 32 0x40);
        OpWriteIR IR_TXN_COMMAND; OpWriteDR DR_TXN_COMMAND_READ_AUX;
        OpWriteIR IR_STATUS; OpReadDR 4 failed_bits]
       (Raised (GlasgowAppletError "transaction failed"))
  /\ ends_with (failed_after 0) 0 (write 0x40 0xCAFE "aux")
       [OpWriteIR IR_ADDRESS; OpWriteDR (Z_to_bits 32 0x40);
        OpWriteIR IR_DATA; OpWriteDR (Z_to_bits 32 0xCAFE);
        OpWriteIR IR_TXN_COMMAND; OpWriteDR DR_TXN_COMMAND_WRITE_AUX;
        OpWriteIR IR_STATUS; OpReadDR 4 failed_bits]
       (Raised (GlasgowAppletError "transaction failed")).
Proof.
  assert (Hr : In ("aux", DR_TXN_COMMAND_READ_AUX) read_opcodes)
    by (right; right; left; reflexivity).
  assert (Hw : In ("aux", DR_TXN_COMMAND_WRITE_AUX) write_opcodes)
    by (right; right; left; reflexivity).
  assert (Hp : pending_until (failed_after 0) 0 0) by pending_prefix.
  assert (Hf : status_FL (failed_after 0 0) = true) by reflexivity.
  split; [exact Hr|]. split; [exact Hw|]. split; [exact Hp|]. split; [exact Hf|].
  pose proof (@failed_poll_stops_transaction arc_jtag (failed_after 0) 0 0
                0x40 0xCAFE "aux" DR_TXN_COMMAND_READ_AUX
                DR_TXN_COMMAND_WRITE_AUX Hr Hw Hp Hf) as H.
  split; [exact (proj1 H) | exact (proj1 (proj2 H))].
Defined.

Lemma identify_returns_witness :
  (forall d, ~ In ((0x0A3, 0x5678), d) sample_devices)
  /\ ends_with (answers 0x15678147) 0 (identify sample_devices)
       [OpWriteIR IR_IDCODE; OpReadDR 32 (Z_to_bits 32 0x15678147)]
       (Returned ([("present", 1); ("mfg_id", 0x0A3); ("part_id", 0x5678);
                   ("version", 1)], None)).
Proof.
  assert (Habs : forall d, ~ In ((0x0A3, 0x5678), d) sample_devices)
    by (intros d [H|[]]; discriminate H).
  split; [exact Habs|].
  exact (proj1 (proj2 (@identify_returns arc_jtag sample_devices
                         (answers 0x15678147) 0)) Habs).
Defined.

Lemma invalid_space_asserts_witness :
  ~ In "io" address_spaces
  /\ run 1 never_ready 0 (read 0x40 "io") = ([], Raised AssertionError)
  /\ run 1 never_ready 0 (write 0x40 0xCAFE "io") = ([], Raised AssertionError).
Proof.
  assert (Hn : ~ In "io" address_spaces)
    by (intros [H|[H|[H|[]]]]; discriminate H).
  split; [exact Hn|].
  pose proof (@invalid_space_asserts arc_jtag never_ready 0 0 0x40 0xCAFE "io" Hn)
    as H.
  split; [exact (proj1 H) | exact (proj1 (proj2 H))].
Defined.

Lemma wait_txn_keeps_polling_witness :
  pending_until (ready_after 3 0) 0 3
  /\ ready (ready_after 3 0 3)
  /\ run 8 (ready_after 3 0) 0 _wait_txn
     = ([OpWriteIR IR_STATUS; OpReadDR 4 pending_bits; OpReadDR 4 pending_bits;
         OpReadDR 4 pending_bits; OpReadDR 4 ready_bits], Running)
  /\ ends_with (ready_after 3 0) 0 _wait_txn
       [OpWriteIR IR_STATUS; OpReadDR 4 pending_bits; OpReadDR 4 pending_bits;
        OpReadDR 4 pending_bits; OpReadDR 4 ready_bits]
       (Returned tt).
Proof.
  assert (Hp : pending_until (ready_after 3 0) 0 3)
    by pending_prefix.
  assert (Hr : ready (ready_after 3 0 3)) by (split; reflexivity).
  split; [exact Hp|]. split; [exact Hr|].
  pose proof (@wait_txn_keeps_polling arc_jtag (ready_after 3 0) 0) as H.
  split.
  - exact (proj1 (proj2 (proj2 H)) 3%nat Hp).
  - exact (proj2 (proj2 (proj2 H)) 3%nat Hp Hr).
Defined.

Lemma wait_txn_ends_iff_witness :
  (forall i, pending (never_ready (0 + i)))
  /\ (forall fuel, snd (run fuel never_ready 0 _wait_txn) = Running)
  /\ (exists tr out, ends_with (failed_after 2) 0 _wait_txn tr out).
Proof.
  assert (Hall : forall i, pending (never_ready (0 + i)))
    by (intros i; split; reflexivity).
  split; [exact Hall|]. split.
  - exact (proj1 (proj2 (proj2 (@wait_txn_ends_iff arc_jtag never_ready 0)) Hall)).
  - apply (proj1 (proj1 (@wait_txn_ends_iff arc_jtag (failed_after 2) 0))).
    exists 2%nat. right. reflexivity.
Defined.

Lemma codec_round_trip_witness :
  let idcode := [("present", 1); ("mfg_id", 0x258); ("part_id", 0x0003);
                 ("version", 2)] in
  valid DR_IDCODE idcode
  /\ to_bitarray DR_IDCODE idcode = Z_to_bits 32 0x200034B1
  /\ from_bitarray DR_IDCODE (to_bitarray DR_IDCODE idcode) = idcode
  /\ getattr "Address"
       (from_bitarray DR_ADDRESS
          (to_bitarray DR_ADDRESS (make DR_ADDRESS [("Address", 0xDEADBEEF)])))
     = 0xDEADBEEF.
Proof.
  intros idcode.
  assert (Hv : valid DR_IDCODE idcode).
  { split.
    - cbn. repeat constructor; cbn; intuition discriminate.
    - cbn. repeat split; lia. }
  assert (Ha : 0 <= 0xDEADBEEF < 2 ^ 32) by lia.
  split; [exact Hv|]. split; [reflexivity|].
  pose proof (@codec_round_trip arc_jtag) as H.
  split.
  - exact (proj2 (proj1 H idcode Hv)).
  - exact (proj2 (proj2 (proj2 (proj1 (proj2 H) 0xDEADBEEF Ha)))).
Defined.

Lemma failed_write_not_atomic_witness :
  run 12 (failed_after 1) 0 (write 0x40 0xCAFE "memory")
  = ([OpWriteIR IR_ADDRESS; OpWriteDR (Z_to_bits 32 0x40);
      OpWriteIR IR_DATA; OpWriteDR (Z_to_bits 32 0xCAFE);
      OpWriteIR IR_TXN_COMMAND; OpWriteDR DR_TXN_COMMAND_WRITE_MEMORY;
      OpWriteIR IR_STATUS; OpReadDR 4 pending_bits; OpReadDR 4 failed_bits],
     Raised (GlasgowAppletError "transaction failed"))
  /\ forall fuel', (12 <= fuel')%nat ->
     run fuel' (failed_after 1) 0 (write 0x40 0xCAFE "memory")
     = ([OpWriteIR IR_ADDRESS; OpWriteDR (Z_to_bits 32 0x40);
         OpWriteIR IR_DATA; OpWriteDR (Z_to_bits 32 0xCAFE);
         OpWriteIR IR_TXN_COMMAND; OpWriteDR DR_TXN_COMMAND_WRITE_MEMORY;
         OpWriteIR IR_STATUS; OpReadDR 4 pending_bits; OpReadDR 4 failed_bits],
        Raised (GlasgowAppletError "transaction failed")).
Proof.
  assert (E : run 12 (failed_after 1) 0 (write 0x40 0xCAFE "memory")
              = ([OpWriteIR IR_ADDRESS; OpWriteDR (Z_to_bits 32 0x40);
                  OpWriteIR IR_DATA; OpWriteDR (Z_to_bits 32 0xCAFE);
                  OpWriteIR IR_TXN_COMMAND;
                  OpWriteDR DR_TXN_COMMAND_WRITE_MEMORY;
                  OpWriteIR IR_STATUS; OpReadDR 4 pending_bits;
                  OpReadDR 4 failed_bits],
                 Raised (GlasgowAppletError "transaction failed")))
    by reflexivity.
  split; [exact E|].
  destruct (@failed_write_not_atomic arc_jtag (failed_after 1) 0 12 0x40 0xCAFE
              "memory" _ "transaction failed" E)
    as [opcode [m [_ [_ [_ [_ H]]]]]].
  exact H.
Defined.

Lemma polls_at_least_once_witness :
  In ("memory", DR_TXN_COMMAND_READ_MEMORY) read_opcodes
  /\ (exists tr', fst (run 6 (answers 0xFFFFFFFF) 0 (read 0x40 "memory"))
                  = read_request 0x40 DR_TXN_COMMAND_READ_MEMORY
                    ++ OpWriteIR IR_STATUS
                       :: OpReadDR 4 (Z_to_bits 32 0xFFFFFFFF) :: tr')
  /\ (exists m, In (OpReadDR 4 (ready_after 0 7 (0 + m)))
                   (fst (run 12 (ready_after 0 7) 0 (read 0x40 "memory")))
                /\ status_RD (ready_after 0 7 (0 + m)) = true).
Proof.
  assert (Hin : In ("memory", DR_TXN_COMMAND_READ_MEMORY) read_opcodes)
    by (left; reflexivity).
  split; [exact Hin|]. split.
  - exact (proj1 (proj2 (proj2 (@polls_at_least_once arc_jtag
                                  (answers 0xFFFFFFFF) 0)))
             6%nat 0x40 "memory" DR_TXN_COMMAND_READ_MEMORY Hin (le_n 6)).
  - refine (proj1 (proj2 (proj2 (proj2 (proj2 (proj2
              (@polls_at_least_once arc_jtag (ready_after 0 7) 0))))))
              12%nat 0x40 "memory" _ 7 _).
    vm_compute. reflexivity.
Defined.

(** ** Beyond the claims: every moment of a transaction *)

Section LongRuns.

Context {arch : ArcJtag}.
Variable resp : nat -> bitarray.

Lemma run_keeps {R} fuel fuel' n (t : itree arcE R) o :
  (fuel <= fuel')%nat ->
  In o (fst (run fuel resp n t)) -> In o (fst (run fuel' resp n t)).
Proof.
  intros Hle Hin. destruct (run_prefix resp n t Hle) as [tr' ->].
  apply in_or_app. left. exact Hin.
Qed.

(** Any run of [write] goes on to one that has issued the request, the
    STATUS selection and some polls, and nothing else. *)
Lemma write_long_run n fuel address data space opcode :
  In (space, opcode) write_opcodes ->
  exists fuel' k,
    (fuel <= fuel')%nat /\
    fst (run fuel' resp n (write address data space))
    = write_request address data opcode
        ++ OpWriteIR IR_STATUS :: polls resp n k.
Proof.
  intros Hin.
  destruct (polls_cases resp n fuel) as [Hp|[j [Hp [Hf|Hr]]]].
  - exists (6 + S (2 * fuel + 0))%nat, fuel. split; [lia|].
    erewrite run_write_request by exact Hin.
    rewrite run_wait_txn_pending by exact Hp.
    cbn [fst run]. rewrite app_nil_r. reflexivity.
  - assert (He : ends_with resp n (write address data space)
                   (write_request address data opcode
                      ++ OpWriteIR IR_STATUS :: polls resp n (S j))
                   (Raised (GlasgowAppletError "transaction failed")))
      by (apply write_fails; assumption).
    destruct He as [_ [f0 H]].
    exists (Nat.max fuel f0), (S j). split; [apply Nat.le_max_l|].
    rewrite (H _ (Nat.le_max_r _ _)). reflexivity.
  - assert (He : ends_with resp n (write address data space)
                   (write_request address data opcode
                      ++ OpWriteIR IR_STATUS :: polls resp n (S j))
                   (Returned tt))
      by (apply write_succeeds; assumption).
    destruct He as [_ [f0 H]].
    exists (Nat.max fuel f0), (S j). split; [apply Nat.le_max_l|].
    rewrite (H _ (Nat.le_max_r _ _)). reflexivity.
Qed.

(** The same for [read]: the request, the STATUS selection and some polls,
    and then the data phase if the last of these polls was ready. *)
Lemma read_long_run n fuel address space opcode :
  In (space, opcode) read_opcodes ->
  exists fuel' k,
    (fuel <= fuel')%nat /\
    (fst (run fuel' resp n (read address space))
     = read_request address opcode ++ OpWriteIR IR_STATUS :: polls resp n k
     \/ (exists m, k = S m /\ pending_until resp n m /\
                   ready (resp (n + m)%nat) /\
                   fst (run fuel' resp n (read address space))
                   = read_request address opcode
                       ++ OpWriteIR IR_STATUS :: polls resp n k
                       ++ [OpWriteIR IR_DATA; OpReadDR 32 (resp (n + k)%nat)])).
Proof.
  intros Hin.
  destruct (polls_cases resp n fuel) as [Hp|[j [Hp [Hf|Hr]]]].
  - exists (4 + S (2 * fuel + 0))%nat, fuel.
    split; [lia|]. left.
    erewrite run_read_request by exact Hin.
    assert (Hw : run (S (2 * fuel + 0)) resp n _wait_txn
                 = (OpWriteIR IR_STATUS :: polls resp n fuel, Running)).
    { rewrite run_wait_txn_pending by exact Hp.
      cbn [run fst snd]. rewrite app_nil_r. reflexivity. }
    apply (run_bind_stops read_data) in Hw. rewrite Hw. reflexivity.
  - assert (He : ends_with resp n (read address space)
                   (read_request address opcode
                      ++ OpWriteIR IR_STATUS :: polls resp n (S j))
                   (Raised (GlasgowAppletError "transaction failed")))
      by (apply read_fails; assumption).
    destruct He as [_ [f0 H]].
    exists (Nat.max fuel f0), (S j).
    split; [apply Nat.le_max_l|]. left.
    rewrite (H _ (Nat.le_max_r _ _)). reflexivity.
  - assert (He : ends_with resp n (read address space)
                   (read_request address opcode
                      ++ OpWriteIR IR_STATUS :: polls resp n (S j)
                      ++ [OpWriteIR IR_DATA; OpReadDR 32 (resp (n + S j)%nat)])
                   (Returned (getattr "Data"
                                (from_bitarray DR_DATA (resp (n + S j)%nat)))))
      by (apply read_succeeds; assumption).
    destruct He as [_ [f0 H]].
    exists (Nat.max fuel f0), (S j).
    split; [apply Nat.le_max_l|]. right.
    exists j. rewrite (H _ (Nat.le_max_r _ _)). auto.
Qed.

End LongRuns.

(** ** Beyond the claims *)

(** X1. [read] on any of the three address spaces: with [m] polls that say
    RD=0, FL=0 and a next one that says RD=1, FL=0, it shifts the READ opcode
    of that very space after the address, selects ADDRESS, TXN_COMMAND,
    STATUS and DATA in that order, and returns the Data field of the answer
    that follows the ready poll. *)
Theorem read_space_sequence {arch : ArcJtag} (resp : nat -> bitarray)
    (n m : nat) (address : Z) (space : string) (opcode : bitarray) :
  In (space, opcode) read_opcodes ->
  pending_until resp n m -> ready (resp (n + m)%nat) ->
  let answer := resp (n + S m)%nat in
  let tr :=
    [OpWriteIR IR_ADDRESS; OpWriteDR (encoded_address address);
     OpWriteIR IR_TXN_COMMAND; OpWriteDR opcode;
     OpWriteIR IR_STATUS]
    ++ polls resp n (S m)
    ++ [OpWriteIR IR_DATA; OpReadDR 32 answer] in
  ends_with resp n (read address space) tr
    (Returned (getattr "Data" (from_bitarray DR_DATA answer)))
  /\ ir_selections tr = [IR_ADDRESS; IR_TXN_COMMAND; IR_STATUS; IR_DATA]
  /\ reads_done tr = S (S m).
Proof.
  intros Hin Hp Hr answer tr. split; [|split].
  - exact (@read_succeeds arch resp n m address space opcode Hin Hp Hr).
  - unfold tr. rewrite !ir_selections_app, ir_selections_polls. reflexivity.
  - unfold tr. rewrite !reads_done_app, reads_done_polls. cbn. lia.
Qed.

(** X2. A run of [read] that is over ended in one of three ways and no
    other: on the assertion, for a space that is none of the three, with
    nothing issued; by returning the Data field, after polls that said RD=0,
    FL=0 and one that said RD=1, FL=0; or by the transaction failure, at the
    first poll with FL set. *)
Theorem read_ends_three_ways {arch : ArcJtag} (resp : nat -> bitarray)
    (n fuel : nat) (address : Z) (space : string) (tr : list op)
    (out : outcome Z) :
  run fuel resp n (read address space) = (tr, out) ->
  out <> Running ->
  (~ In space address_spaces /\ tr = [] /\ out = Raised AssertionError)
  \/ (exists opcode m,
        In (space, opcode) read_opcodes /\ pending_until resp n m /\
        ready (resp (n + m)%nat) /\
        tr = read_request address opcode
               ++ OpWriteIR IR_STATUS :: polls resp n (S m)
               ++ [OpWriteIR IR_DATA; OpReadDR 32 (resp (n + S m)%nat)] /\
        out = Returned
                (getattr "Data" (from_bitarray DR_DATA (resp (n + S m)%nat))))
  \/ (exists opcode m,
        In (space, opcode) read_opcodes /\ pending_until resp n m /\
        status_FL (resp (n + m)%nat) = true /\
        tr = read_request address opcode
               ++ OpWriteIR IR_STATUS :: polls resp n (S m) /\
        out = Raised (GlasgowAppletError "transaction failed")).
Proof. intros E Hout. exact (read_outcomes resp n fuel address space E Hout). Qed.

(** X3. A run of [write] that is over ended in one of three ways and no
    other: on the assertion with nothing issued; by returning, after the
    address, the data and the WRITE opcode were shifted and a poll said RD=1,
    FL=0; or by the transaction failure at the first poll with FL set, the
    three payloads shifted all the same. *)
Theorem write_ends_three_ways {arch : ArcJtag} (resp : nat -> bitarray)
    (n fuel : nat) (address data : Z) (space : string) (tr : list op)
    (out : outcome unit) :
  run fuel resp n (write address data space) = (tr, out) ->
  out <> Running ->
  (~ In space address_spaces /\ tr = [] /\ out = Raised AssertionError)
  \/ (exists opcode m,
        In (space, opcode) write_opcodes /\ pending_until resp n m /\
        ready (resp (n + m)%nat) /\
        tr = write_request address data opcode
               ++ OpWriteIR IR_STATUS :: polls resp n (S m) /\
        out = Returned tt)
  \/ (exists opcode m,
        In (space, opcode) write_opcodes /\ pending_until resp n m /\
        status_FL (resp (n + m)%nat) = true /\
        tr = write_request address data opcode
               ++ OpWriteIR IR_STATUS :: polls resp n (S m) /\
        out = Raised (GlasgowAppletError "transaction failed")).
Proof.
  intros E Hout. exact (write_outcomes resp n fuel address data space E Hout).
Qed.

(** X4. What [_wait_txn] has issued tells what it was answered.  While it
    runs, every poll but the last one issued said RD=0, FL=0.  When it has
    returned, every poll said FL=0, and RD=0 but for the last one.  When it
    has raised, the last poll had FL set and the ones before said RD=0,
    FL=0. *)
Theorem wait_txn_run_shape {arch : ArcJtag} (resp : nat -> bitarray)
    (n fuel : nat) (tr : list op) (out : outcome unit) :
  run (S fuel) resp n _wait_txn = (tr, out) ->
  match out with
  | Running =>
      exists m, tr = OpWriteIR IR_STATUS :: polls resp n m /\
                pending_until resp n (pred m)
  | Returned _ =>
      exists m, tr = OpWriteIR IR_STATUS :: polls resp n (S m) /\
                pending_until resp n m /\ ready (resp (n + m)%nat)
  | Raised e =>
      exists m, tr = OpWriteIR IR_STATUS :: polls resp n (S m) /\
                pending_until resp n m /\
                status_FL (resp (n + m)%nat) = true /\
                e = GlasgowAppletError "transaction failed"
  end.
Proof. intros E. apply run_wait_txn_inv in E. exact E. Qed.

(** X5. At no moment of a [read], whatever the space and the answers, has
    the 32-bit data been read from DR unless a status poll said RD=1, FL=0
    after polls that said RD=0, FL=0; and what is read is the answer that
    follows that poll. *)
Theorem read_data_only_after_ready {arch : ArcJtag} (resp : nat -> bitarray)
    (n fuel : nat) (address : Z) (space : string) (answer : bitarray) :
  In (OpReadDR 32 answer) (fst (run fuel resp n (read address space))) ->
  exists m, pending_until resp n m /\ ready (resp (n + m)%nat) /\
            answer = resp (n + S m)%nat.
Proof.
  intros Hin.
  destruct (@space_cases arch space) as [[ropcode [wopcode [Hr _]]]|Hn].
  - destruct (read_long_run resp n fuel address Hr)
      as [fuel' [k [Hle [Htr|[m [-> [Hp [Hrd Htr]]]]]]]];
      apply (run_keeps resp n (read address space) _ Hle) in Hin;
      rewrite Htr in Hin;
      apply in_app_or in Hin; destruct Hin as [H|[H|H]];
      try (cbn in H; repeat (destruct H as [H|H]; [discriminate|]);
           contradiction);
      try discriminate.
    + apply In_polls in H. destruct H as [i Hi]. discriminate.
    + apply in_app_or in H. destruct H as [H|[H|[H|[]]]].
      * apply In_polls in H. destruct H as [i Hi]. discriminate.
      * discriminate.
      * exists m. split; [exact Hp|]. split; [exact Hrd|]. congruence.
  - exfalso. destruct fuel as [|fuel]; [exact Hin|].
    destruct (run_invalid_space resp n fuel address 0 Hn) as [H _].
    rewrite H in Hin. exact Hin.
Qed.

(** X6. At every moment of a [write] on one of the three spaces, what has
    been issued on the port is an initial part of one fixed sequence: the
    address, the data and the opcode, each after the selection of its
    register, the selection of STATUS, and status polls.  So a write never
    selects another register, and reads from DR four bits at a time only. *)
Theorem write_issues_in_order {arch : ArcJtag} (resp : nat -> bitarray)
    (n fuel : nat) (address data : Z) (space : string) (opcode : bitarray) :
  In (space, opcode) write_opcodes ->
  let tr := fst (run fuel resp n (write address data space)) in
  (exists k rest,
      [OpWriteIR IR_ADDRESS; OpWriteDR (encoded_address address);
       OpWriteIR IR_DATA; OpWriteDR (encoded_data data);
       OpWriteIR IR_TXN_COMMAND; OpWriteDR opcode;
       OpWriteIR IR_STATUS] ++ polls resp n k
      = tr ++ rest)
  /\ (forall w answer, In (OpReadDR w answer) tr -> w = 4%nat).
Proof.
  intros Hin tr.
  destruct (write_long_run resp n fuel address data Hin)
    as [fuel' [k [Hle Hbig]]].
  destruct (run_prefix resp n (write address data space) Hle) as [rest Hrest].
  fold tr in Hrest. rewrite Hbig in Hrest.
  split.
  - exists k, rest. exact Hrest.
  - intros w answer Hw.
    assert (Hw' : In (OpReadDR w answer) (tr ++ rest))
      by (apply in_or_app; left; exact Hw).
    rewrite <- Hrest in Hw'.
    apply in_app_or in Hw'. destruct Hw' as [H|[H|H]].
    + cbn in H. repeat (destruct H as [H|H]; [discriminate|]). contradiction.
    + discriminate.
    + apply In_polls in H. destruct H as [i Hi]. congruence.
Qed.

(** X7. At every moment of a [read] on one of the three spaces, what has
    been issued on the port is an initial part of one fixed sequence: the
    address and the opcode, each after the selection of its register, the
    selection of STATUS, status polls, the selection of DATA and one read of
    32 bits. *)
Theorem read_issues_in_order {arch : ArcJtag} (resp : nat -> bitarray)
    (n fuel : nat) (address : Z) (space : string) (opcode : bitarray) :
  In (space, opcode) read_opcodes ->
  exists k rest,
    [OpWriteIR IR_ADDRESS; OpWriteDR (encoded_address address);
     OpWriteIR IR_TXN_COMMAND; OpWriteDR opcode;
     OpWriteIR IR_STATUS] ++ polls resp n k
    ++ [OpWriteIR IR_DATA; OpReadDR 32 (resp (n + k)%nat)]
    = fst (run fuel resp n (read address space)) ++ rest.
Proof.
  intros Hin.
  destruct (read_long_run resp n fuel address Hin)
    as [fuel' [k [Hle Hbig]]].
  destruct (run_prefix resp n (read address space) Hle) as [rest Hrest].
  exists k.
  destruct Hbig as [Hbig|[m [_ [_ [_ Hbig]]]]]; rewrite Hbig in Hrest.
  - exists (rest ++ [OpWriteIR IR_DATA; OpReadDR 32 (resp (n + k)%nat)]).
    rewrite (app_assoc (fst (run fuel resp n (read address space)))), <- Hrest.
    reflexivity.
  - exists rest. rewrite <- Hrest. reflexivity.
Qed.

(** ** Runs of the applet *)

Section AppletRuns.

Context {arch : ArcJtag}.
Variable TAPInterface : Type.
Variable taps : Z -> option TAPInterface.
Variable resp : nat -> bitarray.

Lemma run_applet_S {R} fuel n (t : itree (appletE TAPInterface) R) :
  run_applet (S fuel) taps resp n t =
  match observe t with
  | RetF r => ([], Returned r)
  | TauF t' => run_applet fuel taps resp n t'
  | VisF e k =>
      match e with
      | inl1 (inl1 e') =>
          let '(o, n', t') := step_tap_applet e' k resp n in
          let r := run_applet fuel taps resp n' t' in
          (o :: fst r, snd r)
      | inl1 (inr1 (Throw ex)) => ([], Raised ex)
      | inr1 e' =>
          let '(o, t') := step_host e' k taps in
          let r := run_applet fuel taps resp n t' in
          (o :: fst r, snd r)
      end
  end.
Proof. reflexivity. Qed.

Lemma run_applet_observe {R} (t t' : itree (appletE TAPInterface) R) :
  observe t = observe t' ->
  forall fuel n, run_applet fuel taps resp n t = run_applet fuel taps resp n t'.
Proof.
  intros Hobs [|fuel] n; [reflexivity|].
  rewrite !run_applet_S, Hobs. reflexivity.
Qed.

Lemma run_applet_call_Ret {R U} (r : R)
    (k : R -> itree (appletE TAPInterface) U) fuel n :
  run_applet fuel taps resp n (ITree.bind (on_interface (Ret r)) k)
  = run_applet fuel taps resp n (k r).
Proof. apply run_applet_observe. reflexivity. Qed.

Lemma run_applet_call_write_ir {R U} code (h : unit -> itree arcE R)
    (k : R -> itree (appletE TAPInterface) U) fuel n :
  run_applet (S fuel) taps resp n
    (ITree.bind (on_interface (ITree.bind (write_ir code) h)) k)
  = let r := run_applet fuel taps resp n (ITree.bind (on_interface (h tt)) k) in
    (OnTap (OpWriteIR code) :: fst r, snd r).
Proof.
  rewrite run_applet_S. cbn.
  rewrite (@run_applet_observe U _ (ITree.bind (on_interface (h tt)) k));
    reflexivity.
Qed.

Lemma run_applet_call_read_dr {R U} w (h : bitarray -> itree arcE R)
    (k : R -> itree (appletE TAPInterface) U) fuel n :
  run_applet (S fuel) taps resp n
    (ITree.bind (on_interface (ITree.bind (read_dr w) h)) k)
  = let r := run_applet fuel taps resp (S n)
               (ITree.bind (on_interface (h (resp n))) k) in
    (OnTap (OpReadDR w (resp n)) :: fst r, snd r).
Proof.
  rewrite run_applet_S. cbn.
  rewrite (@run_applet_observe U _ (ITree.bind (on_interface (h (resp n))) k));
    reflexivity.
Qed.

Lemma run_interact devices operation fuel n :
  run_applet (S (S fuel)) taps resp n (JTAGARCApplet.interact devices operation)
  = let idcode := from_bitarray DR_IDCODE (resp n) in
    let device :=
      lookup devices (getattr "mfg_id" idcode) (getattr "part_id" idcode) in
    let r := run_applet fuel taps resp (S n)
               (after_identify devices operation (idcode, device)) in
    (OnTap (OpWriteIR IR_IDCODE) :: OnTap (OpReadDR 32 (resp n)) :: fst r, snd r).
Proof.
  unfold JTAGARCApplet.interact, identify.
  rewrite run_applet_call_write_ir, run_applet_call_read_dr.
  cbv zeta. rewrite run_applet_call_Ret. reflexivity.
Qed.

Lemma run_applet_host {X U} (e : hostE TAPInterface X)
    (k : X -> itree (appletE TAPInterface) U) fuel n :
  run_applet (S fuel) taps resp n (ITree.bind (trigger e) k)
  = let '(o, t') := step_host e k taps in
    let r := run_applet fuel taps resp n t' in
    (o :: fst r, snd r).
Proof.
  rewrite run_applet_S.
  destruct e; cbn;
    match goal with
    | |- context [run_applet fuel taps resp n (ITree.subst k (Ret ?x))] =>
        rewrite (@run_applet_observe U (ITree.subst k (Ret x)) (k x))
          by reflexivity
    end; reflexivity.
Qed.

Lemma run_applet_throw {U} (e : exn) fuel n :
  run_applet (S fuel) taps resp n (throw e : itree (appletE TAPInterface) U)
  = ([], Raised e).
Proof. reflexivity. Qed.

Lemma run_applet_run tap_index fuel n :
  run_applet (S (S (S fuel))) taps resp n (JTAGARCApplet.run tap_index)
  = let r := run_applet fuel taps resp n
               match taps tap_index with
               | None =>
                   throw (GlasgowAppletError
                            ("cannot select TAP #" ++ format_d tap_index)%string)
               | Some tap_iface =>
                   Ret (__init__ tap_iface JTAGARCApplet.logger)
               end in
    ([SuperRun; TestReset; SelectTap tap_index] ++ fst r, snd r).
Proof.
  unfold JTAGARCApplet.run.
  repeat (rewrite run_applet_host; cbn [step_host]; cbv zeta). reflexivity.
Qed.

End AppletRuns.

(** ** The formats *)

Lemma hex_zeros k s :
  HexString.Raw.to_N (zeros k ++ s)%string 0%N = HexString.Raw.to_N s 0%N.
Proof. induction k as [|k IH]; [reflexivity | exact IH]. Qed.

(** The digits of [%08x] read back as the number, when it is not negative. *)
Lemma format_08x_reads_back v :
  0 <= v -> HexString.Raw.to_N (format_08x v) 0%N = Z.to_N v.
Proof.
  intros Hv. destruct v as [|p|p]; [reflexivity| |lia].
  unfold format_08x, zfill. rewrite hex_zeros.
  cbn [Z.to_N hex_digits]. apply HexString.Raw.to_N_of_pos.
Qed.

(** The numeral of [%d] reads back as the number. *)
Lemma format_d_reads_back v :
  option_map Z.of_int (NilZero.int_of_string (format_d v)) = Some v.
Proof.
  unfold format_d. rewrite NilZero.isi.
  - cbn [option_map]. rewrite DecimalZ.of_to. reflexivity.
  - destruct v; cbn; try discriminate.
    intros H. inversion H as [H']. revert H'. apply Unsigned.to_uint_nonnil.
  - destruct v; cbn; try discriminate.
    intros H. inversion H as [H']. revert H'. apply Unsigned.to_uint_nonnil.
Qed.

Lemma string_app_assoc (a b c : string) :
  ((a ++ b) ++ c = a ++ (b ++ c))%string.
Proof. induction a as [|x a IH]; cbn; [|rewrite IH]; reflexivity. Qed.

Lemma string_app_nil_r (a : string) : (a ++ "")%string = a.
Proof. induction a as [|x a IH]; cbn; [|rewrite IH]; reflexivity. Qed.

Lemma string_sandwich (p q pre x post : string) :
  (p ++ (pre ++ x ++ post) ++ q = (p ++ pre) ++ x ++ (post ++ q))%string.
Proof. rewrite !string_app_assoc. reflexivity. Qed.

(** Every string of a list is part of what [join] makes of the list. *)
Lemma concat_holds sep (l : list string) x :
  In x l -> exists pre post, String.concat sep l = (pre ++ x ++ post)%string.
Proof.
  induction l as [|y l IH]; intros Hin; [contradiction|].
  destruct Hin as [->|Hin].
  - destruct l as [|z l].
    + exists ""%string, ""%string. cbn. rewrite string_app_nil_r. reflexivity.
    + exists ""%string, (sep ++ String.concat sep (z :: l))%string. reflexivity.
  - destruct (IH Hin) as [pre [post Heq]].
    destruct l as [|z l]; [contradiction|].
    exists (y ++ sep ++ pre)%string, post.
    change (String.concat sep (y :: z :: l))
      with (y ++ sep ++ String.concat sep (z :: l))%string.
    rewrite Heq, !string_app_assoc. reflexivity.
Qed.

Lemma lookup_In devices mfg_id part_id d :
  lookup devices mfg_id part_id = Some d -> In ((mfg_id, part_id), d) devices.
Proof.
  induction devices as [|[[m p] d'] devices IH]; [discriminate|].
  cbn [lookup].
  destruct (Z.eqb_spec m mfg_id) as [->|Hm];
    [destruct (Z.eqb_spec p part_id) as [->|Hp]|]; cbn [andb].
  - intros H. inversion H. left. reflexivity.
  - intros H. right. exact (IH H).
  - intros H. right. exact (IH H).
Qed.

Section AppletFacts.

Context {arch : ArcJtag}.
Variable TAPInterface : Type.
Variable taps : Z -> option TAPInterface.
Variable resp : nat -> bitarray.

Lemma run_interact_1 devices operation n :
  run_applet 1 taps resp n (JTAGARCApplet.interact devices operation)
  = ([OnTap (OpWriteIR IR_IDCODE)], Running).
Proof.
  unfold JTAGARCApplet.interact, identify.
  rewrite run_applet_call_write_ir. reflexivity.
Qed.

Lemma is_string_true operation s :
  is_string operation s = true <-> operation = Some s.
Proof.
  destruct operation as [v|]; cbn.
  - rewrite String.eqb_eq. split; congruence.
  - split; discriminate.
Qed.

(** The IDCODE as an integer is the 32 bits that were shifted in. *)
Lemma to_int_from_bitarray bits :
  NoDup (map fst (bf_fields DR_IDCODE)) -> List.length bits = 32%nat ->
  to_int DR_IDCODE (from_bitarray DR_IDCODE bits) = bits_to_Z bits.
Proof.
  intros Hnd Hlen. unfold to_int, to_bitarray, from_bitarray.
  rewrite encode_decode; [reflexivity | exact Hnd |].
  rewrite Hlen. symmetry. exact DR_IDCODE_width.
Qed.

End AppletFacts.

(** X8. When the catalog has nothing for the IDCODE that [identify] read,
    [interact] raises, whatever the operation asked for, after the two
    operations of [identify] and nothing else.  The message ends with the
    hexadecimal digits of the IDCODE: they read back as that number, which
    is the 32 bits the TAP shifted out. *)
Theorem interact_unknown_device {arch : ArcJtag} (TAPInterface : Type)
    (taps : Z -> option TAPInterface) (resp : nat -> bitarray) (n fuel : nat)
    (devices : Catalog) (operation : option string) :
  let idcode := from_bitarray DR_IDCODE (resp n) in
  lookup devices (getattr "mfg_id" idcode) (getattr "part_id" idcode) = None ->
  (3 <= fuel)%nat ->
  run_applet fuel taps resp n (JTAGARCApplet.interact devices operation)
  = ([OnTap (OpWriteIR IR_IDCODE); OnTap (OpReadDR 32 (resp n))],
     Raised (GlasgowAppletError
               ("cannot operate on unknown device IDCODE="
                ++ format_08x (to_int DR_IDCODE idcode))%string))
  /\ HexString.Raw.to_N (format_08x (to_int DR_IDCODE idcode)) 0%N
     = Z.to_N (to_int DR_IDCODE idcode)
  /\ (NoDup (map fst (bf_fields DR_IDCODE)) ->
      List.length (resp n) = 32%nat ->
      to_int DR_IDCODE idcode = bits_to_Z (resp n)).
Proof.
  intros idcode Hnone Hfuel. split; [|split].
  - destruct fuel as [|[|[|fuel]]]; try lia.
    rewrite run_interact. cbv zeta. fold idcode. rewrite Hnone.
    unfold after_identify. rewrite run_applet_throw. reflexivity.
  - apply format_08x_reads_back. unfold to_int.
    apply bits_to_Z_range.
  - intros Hnd Hlen. apply to_int_from_bitarray; assumption.
Qed.

(** X9. [interact] enters the console only for a device of the catalog and
    the operation "repl", and then once, after the two operations of
    [identify]; for a device of the catalog and any other operation, or
    none, it returns without entering it.  It issues nothing else on the
    TAP. *)
Theorem interact_console_only_when_asked {arch : ArcJtag} (TAPInterface : Type)
    (taps : Z -> option TAPInterface) (resp : nat -> bitarray) (n : nat)
    (devices : Catalog) (operation : option string) :
  let idcode := from_bitarray DR_IDCODE (resp n) in
  let device :=
    lookup devices (getattr "mfg_id" idcode) (getattr "part_id" idcode) in
  let session := JTAGARCApplet.interact (TAPInterface := TAPInterface)
                   devices operation in
  (forall fuel, In Console (fst (run_applet fuel taps resp n session)) ->
     device <> None /\ operation = Some "repl")
  /\ (forall fuel, device <> None -> operation = Some "repl" ->
      (4 <= fuel)%nat ->
      run_applet fuel taps resp n session
      = ([OnTap (OpWriteIR IR_IDCODE); OnTap (OpReadDR 32 (resp n)); Console],
         Returned tt))
  /\ (forall fuel, device <> None -> operation <> Some "repl" ->
      (3 <= fuel)%nat ->
      run_applet fuel taps resp n session
      = ([OnTap (OpWriteIR IR_IDCODE); OnTap (OpReadDR 32 (resp n))],
         Returned tt))
  /\ (forall fuel o, In (OnTap o) (fst (run_applet fuel taps resp n session)) ->
      o = OpWriteIR IR_IDCODE \/ o = OpReadDR 32 (resp n)).
Proof.
  intros idcode device session.
  assert (Hrun : forall fuel,
             run_applet (S (S fuel)) taps resp n session
             = (OnTap (OpWriteIR IR_IDCODE) :: OnTap (OpReadDR 32 (resp n))
                  :: fst (run_applet fuel taps resp (S n)
                            (after_identify devices operation (idcode, device))),
                snd (run_applet fuel taps resp (S n)
                       (after_identify devices operation (idcode, device)))))
    by (intros fuel; unfold session; rewrite run_interact; reflexivity).
  assert (Hrepl : is_string operation "repl" = true <-> operation = Some "repl")
    by apply is_string_true.
  split; [|split; [|split]].
  - intros [|[|fuel]] Hin.
    + contradiction.
    + unfold session in Hin. rewrite run_interact_1 in Hin.
      destruct Hin as [Hin|[]]. discriminate.
    + rewrite Hrun in Hin. cbn [fst] in Hin.
      destruct Hin as [Hin|[Hin|Hin]]; try discriminate.
      unfold after_identify in Hin.
      destruct device as [d|].
      * split; [discriminate|].
        destruct (is_string operation "repl") eqn:E; [apply Hrepl; reflexivity|].
        destruct fuel; contradiction.
      * destruct fuel; contradiction.
  - intros fuel Hdev Hop Hfuel.
    destruct fuel as [|[|[|[|fuel]]]]; try lia.
    rewrite Hrun. unfold after_identify.
    destruct device as [d|]; [|congruence].
    rewrite (proj2 Hrepl Hop). reflexivity.
  - intros fuel Hdev Hop Hfuel.
    destruct fuel as [|[|[|fuel]]]; try lia.
    rewrite Hrun. unfold after_identify.
    destruct device as [d|]; [|congruence].
    destruct (is_string operation "repl") eqn:E;
      [exfalso; apply Hop, Hrepl; reflexivity | reflexivity].
  - intros [|[|fuel]] o Hin.
    + contradiction.
    + unfold session in Hin. rewrite run_interact_1 in Hin.
      destruct Hin as [Hin|[]]. left. congruence.
    + rewrite Hrun in Hin. cbn [fst] in Hin.
      destruct Hin as [Hin|[Hin|Hin]]; [left; congruence|right; congruence|].
      exfalso. unfold after_identify in Hin.
      destruct device as [d|].
      * destruct (is_string operation "repl").
        -- destruct fuel as [|fuel]; [contradiction|].
           destruct Hin as [Hin|Hin]; [discriminate|].
           destruct fuel; contradiction.
        -- destruct fuel; contradiction.
      * destruct fuel; contradiction.
Qed.

(** X10. [run] of the applet awaits the [run] it extends, resets the TAPs
    and selects the TAP of the index it was given, in that order, and
    touches no register of a TAP.  When the selection gives nothing it
    raises, and the message ends with the decimal numeral of the index,
    which reads back as the index; otherwise it returns the interface built
    on the selected TAP, which logs at DEBUG. *)
Theorem applet_run_selects_tap (TAPInterface : Type)
    (taps : Z -> option TAPInterface) (resp : nat -> bitarray) (n fuel : nat)
    (tap_index : Z) :
  (4 <= fuel)%nat ->
  run_applet fuel taps resp n (JTAGARCApplet.run tap_index)
  = ([SuperRun; TestReset; SelectTap tap_index],
     match taps tap_index with
     | Some tap_iface =>
         Returned {| lower := tap_iface;
                     _logger := "glasgow.applet.jtag.arc";
                     _level := DEBUG |}
     | None =>
         Raised (GlasgowAppletError
                   ("cannot select TAP #" ++ format_d tap_index)%string)
     end)
  /\ option_map Z.of_int (NilZero.int_of_string (format_d tap_index))
     = Some tap_index
  /\ (forall fuel',
      fst (run_applet fuel' taps resp n (JTAGARCApplet.run tap_index))
      = firstn fuel' [SuperRun; TestReset; SelectTap tap_index]).
Proof.
  intros Hfuel. split; [|split].
  - destruct fuel as [|[|[|[|fuel]]]]; try lia.
    rewrite run_applet_run. cbv zeta.
    destruct (taps tap_index) as [tap_iface|]; reflexivity.
  - apply format_d_reads_back.
  - intros [|[|[|fuel']]]; try reflexivity.
    rewrite run_applet_run. cbv zeta. cbn [fst firstn].
    destruct (taps tap_index) as [tap_iface|]; destruct fuel'; reflexivity.
Qed.

(** X11. Every device that the catalog can answer [identify] with has its
    line, with its name, in the list of supported devices of the applet's
    description. *)
Theorem description_lists_devices (devices : Catalog) (mfg_id part_id : Z)
    (device : ARCDevice) :
  lookup devices mfg_id part_id = Some device ->
  exists before after,
    JTAGARCApplet.description devices
    = (before ++ JTAGARCApplet.device_line device ++ after)%string.
Proof.
  intros Hl. apply lookup_In in Hl.
  assert (Hin : In (JTAGARCApplet.device_line device)
                  (map JTAGARCApplet.device_line (map snd devices))).
  { apply in_map. change device with (snd ((mfg_id, part_id), device)).
    apply in_map. exact Hl. }
  destruct (concat_holds newline _ _ Hin) as [pre [post Heq]].
  exists (JTAGARCApplet.description_before ++ pre)%string.
  exists (post ++ JTAGARCApplet.description_after)%string.
  unfold JTAGARCApplet.description. rewrite Heq.
  apply string_sandwich.
Qed.

(** ** The further properties on concrete runs *)

Lemma read_space_sequence_witness :
  In ("core", DR_TXN_COMMAND_READ_CORE) read_opcodes
  /\ pending_until (ready_after 1 0xCAFE) 0 1
  /\ ready (ready_after 1 0xCAFE 1)
  /\ ends_with (ready_after 1 0xCAFE) 0 (read 0x40 "core")
       [OpWriteIR IR_ADDRESS; OpWriteDR (Z_to_bits 32 0x40);
        OpWriteIR IR_TXN_COMMAND; OpWriteDR DR_TXN_COMMAND_READ_CORE;
        OpWriteIR IR_STATUS; OpReadDR 4 pending_bits; OpReadDR 4 ready_bits;
        OpWriteIR IR_DATA; OpReadDR 32 (Z_to_bits 32 0xCAFE)]
       (Returned 0xCAFE).
Proof.
  assert (Hin : In ("core", DR_TXN_COMMAND_READ_CORE) read_opcodes)
    by (right; left; reflexivity).
  assert (Hp : pending_until (ready_after 1 0xCAFE) 0 1) by pending_prefix.
  assert (Hr : ready (ready_after 1 0xCAFE 1)) by (split; reflexivity).
  split; [exact Hin|]. split; [exact Hp|]. split; [exact Hr|].
  exact (proj1 (@read_space_sequence arc_jtag (ready_after 1 0xCAFE) 0 1 0x40
                  "core" DR_TXN_COMMAND_READ_CORE Hin Hp Hr)).
Defined.

Lemma read_ends_three_ways_witness :
  run 12 (failed_after 1) 0 (read 0x40 "aux")
  = ([OpWriteIR IR_ADDRESS; OpWriteDR (Z_to_bits 32 0x40);
      OpWriteIR IR_TXN_COMMAND; OpWriteDR DR_TXN_COMMAND_READ_AUX;
      OpWriteIR IR_STATUS; OpReadDR 4 pending_bits; OpReadDR 4 failed_bits],
     Raised (GlasgowAppletError "transaction failed"))
  /\ exists opcode m,
       In ("aux", opcode) read_opcodes /\ pending_until (failed_after 1) 0 m /\
       status_FL (failed_after 1 (0 + m)) = true.
Proof.
  assert (E : run 12 (failed_after 1) 0 (read 0x40 "aux")
              = ([OpWriteIR IR_ADDRESS; OpWriteDR (Z_to_bits 32 0x40);
                  OpWriteIR IR_TXN_COMMAND; OpWriteDR DR_TXN_COMMAND_READ_AUX;
                  OpWriteIR IR_STATUS; OpReadDR 4 pending_bits;
                  OpReadDR 4 failed_bits],
                 Raised (GlasgowAppletError "transaction failed")))
    by reflexivity.
  assert (Hout : Raised (GlasgowAppletError "transaction failed")
                 <> @Running Z) by discriminate.
  split; [exact E|].
  destruct (@read_ends_three_ways arc_jtag (failed_after 1) 0 12 0x40 "aux"
              _ _ E Hout)
    as [[_ [_ H]]|[[opcode [m [_ [_ [_ [_ H]]]]]]|[opcode [m [Hin [Hp [Hf _]]]]]]];
    try discriminate H.
  exists opcode, m. auto.
Defined.

Lemma write_ends_three_ways_witness :
  run 12 (ready_after 1 0) 0 (write 0x40 0xCAFE "memory")
  = ([OpWriteIR IR_ADDRESS; OpWriteDR (Z_to_bits 32 0x40);
      OpWriteIR IR_DATA; OpWriteDR (Z_to_bits 32 0xCAFE);
      OpWriteIR IR_TXN_COMMAND; OpWriteDR DR_TXN_COMMAND_WRITE_MEMORY;
      OpWriteIR IR_STATUS; OpReadDR 4 pending_bits; OpReadDR 4 ready_bits],
     Returned tt)
  /\ exists opcode m,
       In ("memory", opcode) write_opcodes /\
       pending_until (ready_after 1 0) 0 m /\ ready (ready_after 1 0 (0 + m)).
Proof.
  assert (E : run 12 (ready_after 1 0) 0 (write 0x40 0xCAFE "memory")
              = ([OpWriteIR IR_ADDRESS; OpWriteDR (Z_to_bits 32 0x40);
                  OpWriteIR IR_DATA; OpWriteDR (Z_to_bits 32 0xCAFE);
                  OpWriteIR IR_TXN_COMMAND;
                  OpWriteDR DR_TXN_COMMAND_WRITE_MEMORY;
                  OpWriteIR IR_STATUS; OpReadDR 4 pending_bits;
                  OpReadDR 4 ready_bits],
                 Returned tt))
    by reflexivity.
  assert (Hout : Returned tt <> Running) by discriminate.
  split; [exact E|].
  destruct (@write_ends_three_ways arc_jtag (ready_after 1 0) 0 12 0x40 0xCAFE
              "memory" _ _ E Hout)
    as [[_ [_ H]]|[[opcode [m [Hin [Hp [Hr _]]]]]|[opcode [m [_ [_ [_ [_ H]]]]]]]];
    try discriminate H.
  exists opcode, m. auto.
Defined.

Lemma wait_txn_run_shape_witness :
  run 8 (ready_after 2 0) 0 _wait_txn
  = ([OpWriteIR IR_STATUS; OpReadDR 4 pending_bits; OpReadDR 4 pending_bits;
      OpReadDR 4 ready_bits], Returned tt)
  /\ exists m, pending_until (ready_after 2 0) 0 m /\
               ready (ready_after 2 0 (0 + m)).
Proof.
  assert (E : run 8 (ready_after 2 0) 0 _wait_txn
              = ([OpWriteIR IR_STATUS; OpReadDR 4 pending_bits;
                  OpReadDR 4 pending_bits; OpReadDR 4 ready_bits],
                 Returned tt))
    by reflexivity.
  split; [exact E|].
  destruct (@wait_txn_run_shape arc_jtag (ready_after 2 0) 0 7 _ _ E)
    as [m [_ H]].
  exists m. exact H.
Defined.

Lemma read_data_only_after_ready_witness :
  In (OpReadDR 32 (Z_to_bits 32 7))
     (fst (run 12 (ready_after 0 7) 0 (read 0x40 "memory")))
  /\ exists m, pending_until (ready_after 0 7) 0 m /\
               ready (ready_after 0 7 (0 + m)) /\
               Z_to_bits 32 7 = ready_after 0 7 (0 + S m).
Proof.
  assert (Hin : In (OpReadDR 32 (Z_to_bits 32 7))
                  (fst (run 12 (ready_after 0 7) 0 (read 0x40 "memory"))))
    by (vm_compute; do 7 right; left; reflexivity).
  split; [exact Hin|].
  exact (@read_data_only_after_ready arc_jtag (ready_after 0 7) 0 12 0x40
           "memory" (Z_to_bits 32 7) Hin).
Defined.

Lemma write_issues_in_order_witness :
  In ("aux", DR_TXN_COMMAND_WRITE_AUX) write_opcodes
  /\ forall w answer,
       In (OpReadDR w answer)
          (fst (run 9 never_ready 0 (write 0x40 0xCAFE "aux"))) ->
       w = 4%nat.
Proof.
  assert (Hin : In ("aux", DR_TXN_COMMAND_WRITE_AUX) write_opcodes)
    by (right; right; left; reflexivity).
  split; [exact Hin|].
  exact (proj2 (@write_issues_in_order arc_jtag never_ready 0 9 0x40 0xCAFE
                  "aux" DR_TXN_COMMAND_WRITE_AUX Hin)).
Defined.

Lemma read_issues_in_order_witness :
  In ("aux", DR_TXN_COMMAND_READ_AUX) read_opcodes
  /\ exists k rest,
       [OpWriteIR IR_ADDRESS; OpWriteDR (encoded_address 0x40);
        OpWriteIR IR_TXN_COMMAND; OpWriteDR DR_TXN_COMMAND_READ_AUX;
        OpWriteIR IR_STATUS] ++ polls never_ready 0 k
       ++ [OpWriteIR IR_DATA; OpReadDR 32 (never_ready (0 + k))]
       = fst (run 9 never_ready 0 (read 0x40 "aux")) ++ rest.
Proof.
  assert (Hin : In ("aux", DR_TXN_COMMAND_READ_AUX) read_opcodes)
    by (right; right; left; reflexivity).
  split; [exact Hin|].
  exact (@read_issues_in_order arc_jtag never_ready 0 9 0x40 "aux"
           DR_TXN_COMMAND_READ_AUX Hin).
Defined.

Lemma interact_unknown_device_witness :
  lookup sample_devices 0x0A3 0x5678 = None
  /\ (3 <= 5)%nat
  /\ run_applet 5 one_tap (answers 0x15678147) 0
       (JTAGARCApplet.interact sample_devices (Some "repl"))
     = ([OnTap (OpWriteIR IR_IDCODE);
         OnTap (OpReadDR 32 (Z_to_bits 32 0x15678147))],
        Raised (GlasgowAppletError
                  "cannot operate on unknown device IDCODE=15678147")).
Proof.
  assert (Hnone : lookup sample_devices 0x0A3 0x5678 = None) by reflexivity.
  assert (Hfuel : (3 <= 5)%nat) by lia.
  split; [exact Hnone|]. split; [exact Hfuel|].
  exact (proj1 (@interact_unknown_device arc_jtag unit one_tap
                  (answers 0x15678147) 0 5 sample_devices (Some "repl")
                  Hnone Hfuel)).
Defined.

Lemma interact_console_only_when_asked_witness :
  lookup sample_devices 0x258 0x0003 <> None
  /\ run_applet 6 one_tap (answers 0x200034B1) 0
       (JTAGARCApplet.interact sample_devices (Some "repl"))
     = ([OnTap (OpWriteIR IR_IDCODE);
         OnTap (OpReadDR 32 (Z_to_bits 32 0x200034B1)); Console],
        Returned tt)
  /\ run_applet 6 one_tap (answers 0x200034B1) 0
       (JTAGARCApplet.interact sample_devices None)
     = ([OnTap (OpWriteIR IR_IDCODE);
         OnTap (OpReadDR 32 (Z_to_bits 32 0x200034B1))],
        Returned tt).
Proof.
  assert (Hdev : lookup sample_devices 0x258 0x0003 <> None) by discriminate.
  split; [exact Hdev|]. split.
  - exact (proj1 (proj2 (@interact_console_only_when_asked arc_jtag unit
                           one_tap (answers 0x200034B1) 0 sample_devices
                           (Some "repl")))
             6%nat Hdev eq_refl ltac:(lia)).
  - refine (proj1 (proj2 (proj2 (@interact_console_only_when_asked arc_jtag
                                   unit one_tap (answers 0x200034B1) 0
                                   sample_devices None)))
              6%nat Hdev _ ltac:(lia)).
    discriminate.
Defined.

Lemma applet_run_selects_tap_witness :
  (4 <= 4)%nat
  /\ run_applet 4 one_tap never_ready 0 (JTAGARCApplet.run 3)
     = ([SuperRun; TestReset; SelectTap 3],
        Raised (GlasgowAppletError "cannot select TAP #3"))
  /\ run_applet 4 one_tap never_ready 0 (JTAGARCApplet.run 0)
     = ([SuperRun; TestReset; SelectTap 0],
        Returned {| lower := tt; _logger := "glasgow.applet.jtag.arc";
                    _level := DEBUG |}).
Proof.
  assert (Hfuel : (4 <= 4)%nat) by lia.
  split; [exact Hfuel|]. split.
  - exact (proj1 (@applet_run_selects_tap unit one_tap never_ready 0 4 3 Hfuel)).
  - exact (proj1 (@applet_run_selects_tap unit one_tap never_ready 0 4 0 Hfuel)).
Defined.

Lemma description_lists_devices_witness :
  lookup sample_devices 0x258 0x0003 = Some {| name := "ARC6xx" |}
  /\ exists before after,
       JTAGARCApplet.description sample_devices
       = (before ++ JTAGARCApplet.device_line {| name := "ARC6xx" |}
            ++ after)%string.
Proof.
  assert (Hl : lookup sample_devices 0x258 0x0003 = Some {| name := "ARC6xx" |})
    by reflexivity.
  split; [exact Hl|].
  exact (@description_lists_devices sample_devices 0x258 0x0003 _ Hl).
Defined.
